(** * vite-plugin-for-shopify: the snippet generator and its plumbing

    A shallow embedding of the plugin's two source variants,
    [dist/index.mjs] (three cooperating sub-plugins) and the older
    single-plugin file, followed by the properties the specification states
    about them.

    Conventions of the embedding.
    - A JavaScript string is a [string]; every operation used by the plugin
      ([startsWith], [endsWith], [substring], [slice], [lastIndexOf], the
      two regular expressions) looks only at ASCII characters, so reading a
      [string] as a sequence of code units does not change its result.
    - A value that may be [undefined] is an [option]; [None] is [undefined].
    - The parsed manifest is the list of its own properties in the order
      [Object.values] enumerates them; [manifest[key]] is [lookupKey].
      The object [entryNameByPath] is a finite map.  Keys are taken not to
      be names of members of [Object.prototype].
    - The manifest is typed as the bundler writes it: every field may be
      absent, strings are strings and lists are lists of strings.
    - The import traversal has no cycle guard in the source.  The embedding
      threads the call-stack depth left to it ([depth]); a chain of calls
      deeper than that raises [RangeError], as the engine does when the
      stack is exhausted. *)

From Stdlib Require Import ZArith NArith Lia Ascii String List Bool.
From stdpp Require Import base option list strings gmap relations.

Local Open Scope string_scope.
Local Open Scope Z_scope.

(** ** JavaScript string primitives *)

Module Js.

(** [String.prototype.startsWith]. *)
Definition startsWith (s p : string) : bool := String.prefix p s.

(** [String.prototype.endsWith]: some tail of [s] is [p]. *)
Fixpoint endsWith (s p : string) : bool :=
  String.eqb s p ||
  match s with
  | EmptyString => false
  | String _ s' => endsWith s' p
  end.

(** [String.prototype.lastIndexOf] for a one-character needle; [-1] when
    the character does not occur. *)
Fixpoint lastIndexOf (s : string) (c : ascii) : Z :=
  match s with
  | EmptyString => -1
  | String a s' =>
      let r := lastIndexOf s' c in
      if 0 <=? r then r + 1
      else if Ascii.eqb a c then 0 else -1
  end.

Definition len (s : string) : Z := Z.of_nat (String.length s).

(** Clamp an index into [0 .. len s], as [substring] does. *)
Definition clamp (s : string) (i : Z) : Z := Z.min (Z.max i 0) (len s).

(** [String.prototype.substring(a, b)]: both indices are clamped and the
    smaller one is the start, whatever the order they were given in. *)
Definition substring (s : string) (a b : Z) : string :=
  let a' := clamp s a in
  let b' := clamp s b in
  let lo := Z.min a' b' in
  let hi := Z.max a' b' in
  String.substring (Z.to_nat lo) (Z.to_nat (hi - lo)) s.

(** [String.prototype.substring(a)]: up to the end of the string. *)
Definition substringFrom (s : string) (a : Z) : string :=
  substring s a (len s).

(** [String.prototype.slice(a, b)]: a negative index counts from the end,
    and an empty string results when the start is not before the end. *)
Definition sliceIndex (s : string) (i : Z) : Z :=
  if i <? 0 then Z.max (len s + i) 0 else Z.min i (len s).

Definition slice (s : string) (a b : Z) : string :=
  let lo := sliceIndex s a in
  let hi := sliceIndex s b in
  String.substring (Z.to_nat lo) (Z.to_nat (Z.max (hi - lo) 0)) s.

(** [ToString] of a value that is a string or [undefined]. *)
Definition toString (v : option string) : string :=
  match v with
  | Some s => s
  | None => "undefined"
  end.

(** [Array.prototype.join]: [undefined] elements print as nothing. *)
Definition joinItem (v : option string) : string :=
  match v with
  | Some s => s
  | None => ""
  end.

Fixpoint join (sep : string) (l : list (option string)) : string :=
  match l with
  | [] => ""
  | [v] => joinItem v
  | v :: rest => joinItem v +:+ sep +:+ join sep rest
  end.

(** [Array.prototype.join('')] over strings. *)
Definition concat (l : list string) : string :=
  fold_right String.append "" l.

(** A [Set] of values, in insertion order. *)
Definition JsSet : Type := list (option string).

(** [Set.prototype.add]: a value already present is left where it is. *)
Definition Set_add (v : option string) (s : JsSet) : JsSet :=
  if bool_decide (v ∈ s) then s else (s ++ [v])%list.

End Js.

(** ** Regular expressions

    The fragment the plugin's own pattern and the specification's cleanup
    pattern are written in: characters, sequence, alternation and the
    end-of-input anchor.  [matchAt] is the backtracking matcher with a
    continuation; [test] is [RegExp.prototype.test] for a pattern without
    flags, which tries every start position from left to right. *)

Module Regex.

Inductive regex : Type :=
| Chr (c : ascii)
| Seq (a b : regex)
| Alt (a b : regex)
| Eoi.

Fixpoint matchAt (r : regex) (s : string) (k : string -> bool) : bool :=
  match r with
  | Chr c =>
      match s with
      | String c' s' => if Ascii.eqb c' c then k s' else false
      | EmptyString => false
      end
  | Seq a b => matchAt a s (fun s' => matchAt b s' k)
  | Alt a b => matchAt a s k || matchAt b s k
  | Eoi =>
      match s with
      | EmptyString => k EmptyString
      | String _ _ => false
      end
  end.

Fixpoint test (r : regex) (s : string) : bool :=
  matchAt r s (fun _ => true) ||
  match s with
  | EmptyString => false
  | String _ s' => test r s'
  end.

End Regex.

(** ** Stylesheet classification *)

(** [const styleRegex = /\.(sa|sc|c)ss$/] *)
Definition styleRegex : Regex.regex :=
  Regex.Seq (Regex.Chr ".")
    (Regex.Seq
       (Regex.Alt (Regex.Seq (Regex.Chr "s") (Regex.Chr "a"))
          (Regex.Alt (Regex.Seq (Regex.Chr "s") (Regex.Chr "c"))
             (Regex.Chr "c")))
       (Regex.Seq (Regex.Chr "s") (Regex.Seq (Regex.Chr "s") Regex.Eoi))).

(** [const isStyles = (src) => styleRegex.test(src)]; [test] converts its
    argument to a string first. *)
Definition isStyles (src : option string) : bool :=
  Regex.test styleRegex (Js.toString src).

(** ** Completions: a value, or a thrown error *)

Inductive JsError : Type :=
| TypeError
| RangeError
| SyntaxError
| IOError.

Inductive Completion (A : Type) : Type :=
| Normal (a : A)
| Throw (e : JsError).

Arguments Normal {A} a.
Arguments Throw {A} e.

#[global] Instance Completion_ret : MRet Completion := fun _ a => Normal a.
#[global] Instance Completion_bind : MBind Completion :=
  fun _ _ f m =>
    match m with
    | Normal a => f a
    | Throw e => Throw e
    end.

(** ** The manifest *)

Record ManifestEntry : Type := {
  isEntry : option bool;
  name : option string;
  src : option string;
  file : option string;
  css : option (list string);
  imports : option (list string)
}.

Definition Manifest : Type := list (string * ManifestEntry).

(** [manifest[key]] *)
Fixpoint lookupKey (manifest : Manifest) (key : string) : option ManifestEntry :=
  match manifest with
  | [] => None
  | (k, e) :: rest => if String.eqb k key then Some e else lookupKey rest key
  end.

(** [Object.values(manifest)] *)
Definition manifestValues (manifest : Manifest) : list ManifestEntry :=
  map snd manifest.

(** The destructuring defaults [css = []] and [imports = []]. *)
Definition cssOf (node : ManifestEntry) : list string := default [] (css node).
Definition importsOf (node : ManifestEntry) : list string := default [] (imports node).

(** ** The entry resolver *)

(** [imports.forEach(imp => visit(manifest[imp]))]; destructuring
    [undefined], the value of a key the manifest lacks, is a [TypeError]. *)
Fixpoint forEachImport (visit : ManifestEntry -> Js.JsSet -> Completion Js.JsSet)
    (manifest : Manifest) (imps : list string) (styleFiles : Js.JsSet)
    : Completion Js.JsSet :=
  match imps with
  | [] => Normal styleFiles
  | imp :: rest =>
      match lookupKey manifest imp with
      | None => Throw TypeError
      | Some child =>
          styleFiles' ← visit child styleFiles;
          forEachImport visit manifest rest styleFiles'
      end
  end.

(** [css.forEach(cssFile => styleFiles.add(cssFile))] *)
Definition addAll (cssFiles : list string) (styleFiles : Js.JsSet) : Js.JsSet :=
  foldl (fun acc cssFile => Js.Set_add (Some cssFile) acc) styleFiles cssFiles.

(** [handleEntryImports], with the set it fills passed through. *)
Fixpoint handleEntryImports (depth : nat) (manifest : Manifest)
    (node : ManifestEntry) (styleFiles : Js.JsSet) : Completion Js.JsSet :=
  match depth with
  | O => Throw RangeError
  | S depth' =>
      if isStyles (src node) then
        Normal (Js.Set_add (file node) styleFiles)
      else
        forEachImport (handleEntryImports depth' manifest) manifest
          (importsOf node) (addAll (cssOf node) styleFiles)
  end.

(** The arguments of the successive [styleFiles.add] calls of one
    traversal, in call order: the same walk as [handleEntryImports], with
    every call written down instead of performed. *)
Fixpoint forEachImportCalls (visit : ManifestEntry -> Completion (list (option string)))
    (manifest : Manifest) (imps : list string) : Completion (list (option string)) :=
  match imps with
  | [] => Normal []
  | imp :: rest =>
      match lookupKey manifest imp with
      | None => Throw TypeError
      | Some child =>
          here ← visit child;
          later ← forEachImportCalls visit manifest rest;
          Normal (here ++ later)%list
      end
  end.

Fixpoint addCalls (depth : nat) (manifest : Manifest) (node : ManifestEntry)
    : Completion (list (option string)) :=
  match depth with
  | O => Throw RangeError
  | S depth' =>
      if isStyles (src node) then Normal [file node]
      else
        later ← forEachImportCalls (addCalls depth' manifest) manifest (importsOf node);
        Normal (map Some (cssOf node) ++ later)%list
  end.

(** The first occurrence of every element, in order. *)
Fixpoint firstOccurrences (l : list (option string)) : list (option string) :=
  match l with
  | [] => []
  | x :: rest => x :: filter (fun y => y ≠ x) (firstOccurrences rest)
  end.

(** ** Entry naming *)

(** The path normalisation of the [entryNameByPath] loop. *)
Definition normalizePath (path : string) : string :=
  if Js.startsWith path "./" then Js.substringFrom path 2 else path.

(** [entryNameByPath], filled in [Object.keys(input)] order. *)
Definition entryNameByPath (input : list (string * string)) : gmap string string :=
  foldl (fun acc kv => <[normalizePath (snd kv) := fst kv]> acc) ∅ input.

(** [src.substring(src.lastIndexOf('/') + 1, src.lastIndexOf('.'))] *)
Definition stemOf (s : string) : string :=
  Js.substring s (Js.lastIndexOf s "/" + 1) (Js.lastIndexOf s ".").

(** [name ?? entryNameByPath[src] ?? src.substring(...)]; the property key
    of an [undefined] [src] is the string "undefined", and calling
    [substring] on [undefined] is a [TypeError]. *)
Definition entryNameOf (byPath : gmap string string) (e : ManifestEntry)
    : Completion string :=
  match name e with
  | Some n => Normal n
  | None =>
      match byPath !! Js.toString (src e) with
      | Some key => Normal key
      | None =>
          match src e with
          | Some s => Normal (stemOf s)
          | None => Throw TypeError
          end
      end
  end.

(** ** One entry *)

Record EntryResolution : Type := {
  entryName : string;
  styleFiles : Js.JsSet;
  jsFiles : Js.JsSet
}.

(** The body of the [manifestValues.forEach] callback for an entry, up to
    the two filled sets. *)
Definition resolveEntry (depth : nat) (byPath : gmap string string)
    (manifest : Manifest) (e : ManifestEntry) : Completion EntryResolution :=
  n ← entryNameOf byPath e;
  styles ← handleEntryImports depth manifest e [];
  Normal {| entryName := n;
            styleFiles := styles;
            jsFiles := if isStyles (src e) then [] else Js.Set_add (file e) [] |}.

(** [isEntry === true] *)
Definition isEntryTrue (e : ManifestEntry) : bool :=
  match isEntry e with
  | Some true => true
  | _ => false
  end.

(** The [forEach] over the manifest values: entries are resolved in order,
    the others are passed over, and the first error ends the loop. *)
Fixpoint resolveAll (depth : nat) (byPath : gmap string string)
    (manifest : Manifest) (values : list ManifestEntry)
    : Completion (list EntryResolution) :=
  match values with
  | [] => Normal []
  | e :: rest =>
      if isEntryTrue e then
        r ← resolveEntry depth byPath manifest e;
        rs ← resolveAll depth byPath manifest rest;
        Normal (r :: rs)
      else resolveAll depth byPath manifest rest
  end.

(** ** The snippet renderer *)

Definition nl : string := String (ascii_of_nat 10) EmptyString.
Definition dquote : string := String (ascii_of_nat 34) EmptyString.
Definition esc : string := String (ascii_of_nat 27) EmptyString.

(** [assignScriptFiles] *)
Definition assignScriptFiles (fileNames : list (option string)) : string :=
  nl +:+ "      assign js_files = " +:+ dquote +:+ Js.join "|" fileNames +:+ dquote.

(** [assignStyleFiles] *)
Definition assignStyleFiles (fileNames : list (option string)) : string :=
  nl +:+ "      assign style_files = " +:+ dquote +:+ Js.join "|" fileNames +:+ dquote.

(** [entryTag] *)
Definition entryTag (entryName assets : string) : string :=
  nl +:+ "    when '" +:+ entryName +:+ "'" +:+ assets.

(** The [assets] array of one entry: an assignment for each set that is
    not empty, styles first. *)
Definition assetsOf (r : EntryResolution) : list string :=
  ((if 0 <? Z.of_nat (length (styleFiles r)) then [assignStyleFiles (styleFiles r)] else [])
   ++ (if 0 <? Z.of_nat (length (jsFiles r)) then [assignScriptFiles (jsFiles r)] else []))%list.

(** What the callback pushes to [allEntries] for one entry. *)
Definition branchOf (r : EntryResolution) : string :=
  entryTag (entryName r) (Js.concat (assetsOf r)).

(** The text handed to [writeFile].  [snippetStart] and [snippetEnd] are the
    two fixed template fragments around the dispatch block. *)
Definition snippetText (snippetStart snippetEnd : string)
    (allEntries : list string) : string :=
  "{%- liquid" +:+ snippetStart +:+ nl +:+ "  case entry" +:+ Js.concat allEntries
  +:+ nl +:+ "  endcase" +:+ nl +:+ snippetEnd +:+ nl +:+ "-%}".

(** ** Hooks and their effects *)

(** What a hook does to the outside world, in the order it does it. *)
Inductive Call : Type :=
| CallWriteFile (path content : string)
| CallUnlink (path : string)
| CallConsoleError (e : JsError)
| CallConsoleLog (args : list string).

(** A hook body: the calls it made, and how it ended. *)
Definition IO (A : Type) : Type := list Call * Completion A.

#[global] Instance IO_ret : MRet IO := fun _ a => ([], Normal a).
#[global] Instance IO_bind : MBind IO :=
  fun _ _ f m =>
    match m with
    | (calls, Normal a) => let '(calls', r) := f a in ((calls ++ calls')%list, r)
    | (calls, Throw e) => (calls, Throw e)
    end.

(** A step that makes no call of its own. *)
Definition lift {A : Type} (c : Completion A) : IO A := ([], c).

(** [try { body } catch (err) { handler(err) }] *)
Definition tryCatch {A : Type} (body : IO A) (handler : JsError -> IO A) : IO A :=
  match body with
  | (calls, Normal a) => (calls, Normal a)
  | (calls, Throw e) => let '(calls', r) := handler e in ((calls ++ calls')%list, r)
  end.

(** The file system as the hooks meet it: the answer to each request. *)
Record FileSystem : Type := {
  access : string -> bool;
  readFile : string -> Completion string;
  writeFile : string -> string -> Completion unit;
  unlink : string -> Completion unit;
  readdir : string -> Completion (list string)
}.

(** The closure variables shared by the hooks. *)
Record PluginState : Type := {
  input : list (string * string);
  outDir : string;
  manifestFilename : string
}.

(** [let manifestFilename = '_manifest.json'; let input = {};
     let outDir = './assets'] *)
Definition initialState : PluginState :=
  {| input := []; outDir := "./assets"; manifestFilename := "_manifest.json" |}.

Section Hooks.

(** [resolve] of [node:path], applied to its argument list. *)
Variable resolve : list string -> string.

(** [JSON.parse], as far as a manifest comes out of it. *)
Variable JSON_parse : string -> Completion Manifest.

(** The two fixed template fragments. *)
Variables snippetStart snippetEnd : string.

Variable fs : FileSystem.

(** The body of the [try] block of [closeBundle]. *)
Definition generate (depth : nat) (byPath : gmap string string)
    (isDev : bool) (snippetPath manifestPath : string) : IO unit :=
  manifestFile ← lift (readFile fs manifestPath);
  manifest ← lift (JSON_parse manifestFile);
  resolutions ← lift (resolveAll depth byPath manifest (manifestValues manifest));
  let text := snippetText snippetStart snippetEnd (map branchOf resolutions) in
  _ ← ([CallWriteFile snippetPath text], writeFile fs snippetPath text);
  if isDev then mret tt
  else ([CallUnlink manifestPath], unlink fs manifestPath).

(** [closeBundle]: nothing to do without a manifest file; otherwise the
    generation, with every error caught and printed. *)
Definition closeBundle (depth : nat) (st : PluginState) (isDev : bool)
    (snippetPath : string) : IO unit :=
  let manifestPath := resolve [outDir st; manifestFilename st] in
  if negb (access fs manifestPath) then mret tt
  else
    let byPath := entryNameByPath (input st) in
    tryCatch
      (generate depth byPath isDev snippetPath manifestPath)
      (fun err => ([CallConsoleError err], Normal tt)).

(** What the [try] block reaches before the manifest is removed: the file
    read, parsed and resolved, and the snippet written. *)
Definition generated (depth : nat) (st : PluginState) (snippetPath : string) : Prop :=
  let manifestPath := resolve [outDir st; manifestFilename st] in
  access fs manifestPath = true /\
  exists manifestFile manifest resolutions,
    readFile fs manifestPath = Normal manifestFile /\
    JSON_parse manifestFile = Normal manifest /\
    resolveAll depth (entryNameByPath (input st)) manifest (manifestValues manifest)
      = Normal resolutions /\
    writeFile fs snippetPath
      (snippetText snippetStart snippetEnd (map branchOf resolutions)) = Normal tt.

(** [fileNames.includes(file)] *)
Definition includes (fileNames : list string) (file : string) : bool :=
  bool_decide (file ∈ fileNames).

(** The files the [writeBundle] callback removes, in directory order:
    [options.cleanup.fileNameRegex.test(file) && !fileNames.includes(file)].
    [fileNameRegex] is the [test] of the configured pattern, a pattern
    without the [g] or [y] flag: its answer depends on the file name alone. *)
Definition staleFiles (fileNameRegex : string -> bool)
    (fileNames files : list string) : list string :=
  List.filter (fun file => fileNameRegex file && negb (includes fileNames file)) files.

(** [consoleReport] *)
Definition consoleReportOf (removed : list string) : string :=
  Js.concat (map (fun file => file +:+ nl) removed).

(** [Promise.all] over the [unlink] promises: every call has been made by
    the time the first rejection, if any, is seen. *)
Fixpoint awaitAll (results : list (Completion unit)) : Completion unit :=
  match results with
  | [] => Normal tt
  | Normal _ :: rest => awaitAll rest
  | Throw e :: _ => Throw e
  end.

(** [writeBundle], up to its console output: [dir] is the argument of
    [readdir] and [report] prints the list of removed files. *)
Definition writeBundle (dir : string) (report : string -> list Call)
    (outDir : string) (fileNameRegex : string -> bool)
    (fileNames : list string) : IO unit :=
  files ← lift (readdir fs dir);
  let removed := staleFiles fileNameRegex fileNames files in
  let paths := map (fun file => resolve [outDir; file]) removed in
  _ ← (map CallUnlink paths, awaitAll (map (unlink fs) paths));
  (report (consoleReportOf removed), Normal tt).

End Hooks.

(** ** The configuration the bundler hands to the hooks *)

Inductive ManifestSetting : Type :=
| ManifestName (filename : string)
| ManifestFlag (enabled : bool).

Record BuildOptions : Type := {
  rollupInput : option (list (string * string));
  buildOutDir : option string;
  buildManifest : option ManifestSetting
}.

Record Config : Type := {
  build : option BuildOptions;
  mode : option string
}.

(** [config.build?.rollupOptions?.input], [config.build?.outDir] *)
Definition configInput (config : Config) : option (list (string * string)) :=
  b ← build config; rollupInput b.
Definition configOutDir (config : Config) : option string :=
  b ← build config; buildOutDir b.

(** [typeof config.build?.manifest === 'string' ? config.build.manifest : fallback] *)
Definition manifestNameOr (fallback : string) (config : Config) : string :=
  match build config with
  | Some {| buildManifest := Some (ManifestName filename) |} => filename
  | _ => fallback
  end.

(** [mode === 'development'] *)
Definition isDevelopment (mode : option string) : bool :=
  bool_decide (mode = Some "development").

(** ** The single-plugin variant *)

Module Legacy.

(** The [config] hook, as far as the closure variables go. *)
Definition config (st : PluginState) (cfg : Config) : PluginState :=
  let input' := default (input st) (configInput cfg) in
  let outDir' := default (outDir st) (configOutDir cfg) in
  let manifestFilename' := manifestNameOr (manifestFilename st) cfg in
  {| input := input';
     outDir := if Js.endsWith outDir' "/"
               then Js.slice outDir' 0 (Js.len outDir' - 1)
               else outDir';
     manifestFilename := manifestFilename' |}.

(** [resolve(`${themeRoot}snippets/${snippetFilename}`)] *)
Definition snippetPath (resolve : list string -> string)
    (themeRoot snippetFilename : string) : string :=
  resolve [themeRoot +:+ "snippets/" +:+ snippetFilename].

(** The two [console.log] calls that end [writeBundle]; the second is
    made whatever the report holds. *)
Definition report (st : PluginState) (consoleReport : string) : list Call :=
  ((if 0 <? Js.len consoleReport then
      [CallConsoleLog
         [esc +:+ "[36m%s" +:+ esc +:+ "[0m";
          nl +:+ nl +:+ "directory " +:+ dquote +:+ outDir st +:+ dquote
          +:+ " was cleaned, removed files:"]]
    else [])
   ++ [CallConsoleLog [esc +:+ "[33m%s" +:+ esc +:+ "[0m"; consoleReport]])%list.

Definition writeBundle (resolve : list string -> string) (fs : FileSystem)
    (st : PluginState) (fileNameRegex : string -> bool) (fileNames : list string)
    : IO unit :=
  writeBundle resolve fs (resolve [outDir st]) (report st) (outDir st)
    fileNameRegex fileNames.

(** [closeBundle]; [optionsMode] is [options.mode]. *)
Definition closeBundle (resolve : list string -> string)
    (JSON_parse : string -> Completion Manifest) (snippetStart snippetEnd : string)
    (fs : FileSystem) (depth : nat) (st : PluginState) (optionsMode : option string)
    (themeRoot snippetFilename : string) : IO unit :=
  closeBundle resolve JSON_parse snippetStart snippetEnd fs depth st
    (isDevelopment optionsMode) (snippetPath resolve themeRoot snippetFilename).

End Legacy.

(** ** The three sub-plugins of [dist/index.mjs] *)

Module Dist.

(** The value the [config] hook of the first sub-plugin gives
    [build.manifest]. *)
Definition config (cfg : Config) : string :=
  manifestNameOr "_manifest.json" cfg.

(** The [configResolved] hook of the cleanup sub-plugin. *)
Definition cleanup_configResolved (outDir : string) (cfg : Config) : string :=
  default outDir (configOutDir cfg).

(** The [configResolved] hook of the snippet sub-plugin.  By then the
    [config] hook above has made [build.manifest] a file name. *)
Definition snippet_configResolved (st : PluginState) (cfg : Config) : PluginState :=
  {| input := default (input st) (configInput cfg);
     outDir := default (outDir st) (configOutDir cfg);
     manifestFilename := config cfg |}.

(** [resolve(themeRoot, `./snippets/${snippetFilename}`)] *)
Definition snippetPath (resolve : list string -> string)
    (themeRoot snippetFilename : string) : string :=
  resolve [themeRoot; "./snippets/" +:+ snippetFilename].

(** One [console.log], and only for a report that is not empty. *)
Definition report (outDir : string) (consoleReport : string) : list Call :=
  if 0 <? Js.len consoleReport then
    [CallConsoleLog
       [esc +:+ "[36m" +:+ nl +:+ nl +:+ "directory " +:+ dquote +:+ outDir
        +:+ dquote +:+ " was cleaned, removed files:" +:+ esc +:+ "[33m" +:+ nl
        +:+ consoleReport +:+ esc +:+ "[0m"]]
  else [].

Definition writeBundle (resolve : list string -> string) (fs : FileSystem)
    (outDir : string) (fileNameRegex : string -> bool) (fileNames : list string)
    : IO unit :=
  writeBundle resolve fs outDir (report outDir) outDir fileNameRegex fileNames.

(** [closeBundle]; [configMode] is [resolvedConfig.mode]. *)
Definition closeBundle (resolve : list string -> string)
    (JSON_parse : string -> Completion Manifest) (snippetStart snippetEnd : string)
    (fs : FileSystem) (depth : nat) (st : PluginState) (configMode : option string)
    (themeRoot snippetFilename : string) : IO unit :=
  closeBundle resolve JSON_parse snippetStart snippetEnd fs depth st
    (isDevelopment configMode) (snippetPath resolve themeRoot snippetFilename).

End Dist.


(** ** Notions the properties are stated with *)

(** Performing a run of [add] calls on a set, first to last. *)
Definition addEach (calls : list (option string)) (s : Js.JsSet) : Js.JsSet :=
  foldl (fun acc v => Js.Set_add v acc) s calls.

(** A stylesheet record at the end of a chain of imports that starts at
    [node] and runs through records of the other kind only. *)
Inductive reachesStyle (manifest : Manifest) : ManifestEntry -> ManifestEntry -> Prop :=
| reaches_direct node key target :
    isStyles (src node) = false ->
    key ∈ importsOf node ->
    lookupKey manifest key = Some target ->
    isStyles (src target) = true ->
    reachesStyle manifest node target
| reaches_through node key mid target :
    isStyles (src node) = false ->
    key ∈ importsOf node ->
    lookupKey manifest key = Some mid ->
    reachesStyle manifest mid target ->
    reachesStyle manifest node target.

(** Every chain of imports from [node] ends, at a stylesheet record or at a
    record that imports nothing, before it is [depth] records long, and
    names no key the manifest lacks. *)
Fixpoint importsResolve (depth : nat) (manifest : Manifest) (node : ManifestEntry) : Prop :=
  match depth with
  | O => False
  | S depth' =>
      isStyles (src node) = true \/
      forall key, key ∈ importsOf node ->
        exists child, lookupKey manifest key = Some child /\
                      importsResolve depth' manifest child
  end.


(** ** Sample inputs *)

Definition entryRecord (name src file : option string) (css imports : list string)
    : ManifestEntry :=
  {| isEntry := Some true; name := name; src := src; file := file;
     css := Some css; imports := Some imports |}.

Definition chunkRecord (src file : option string) (css imports : list string)
    : ManifestEntry :=
  {| isEntry := None; name := None; src := src; file := file;
     css := Some css; imports := Some imports |}.

(** The manifest of the specification's scenario. *)
Definition scenarioManifest : Manifest :=
  [("src/theme.js",
    {| isEntry := Some true; name := None; src := Some "src/theme.js";
       file := Some "theme.abc123.js"; css := Some ["theme.css"];
       imports := Some ["src/utils.js"] |});
   ("src/utils.js",
    {| isEntry := None; name := None; src := Some "src/utils.js";
       file := Some "utils.def456.js"; css := Some []; imports := None |})].

Definition scenarioInput : list (string * string) := [("theme", "./src/theme.js")].

(** An entry that imports a module, which imports a stylesheet; the module
    and a second one both declare [shared.css]. *)
Definition twoHopManifest : Manifest :=
  [("src/app.js", entryRecord None (Some "src/app.js") (Some "app.1.js")
                    ["app.css"] ["src/a.js"; "src/b.js"]);
   ("src/a.js", chunkRecord (Some "src/a.js") (Some "a.2.js")
                  ["shared.css"] ["src/s.scss"]);
   ("src/b.js", chunkRecord (Some "src/b.js") (Some "b.3.js")
                  ["shared.css"; "b.css"] []);
   ("src/s.scss", chunkRecord (Some "src/s.scss") (Some "s.4.css") [] []);
   ("src/page.css", entryRecord None (Some "src/page.css") (Some "page.5.css")
                      ["ignored.css"] ["src/a.js"])].

Definition appEntry : ManifestEntry :=
  entryRecord None (Some "src/app.js") (Some "app.1.js")
    ["app.css"] ["src/a.js"; "src/b.js"].

Definition pageEntry : ManifestEntry :=
  entryRecord None (Some "src/page.css") (Some "page.5.css")
    ["ignored.css"] ["src/a.js"].

Definition sheetRecord : ManifestEntry :=
  chunkRecord (Some "src/s.scss") (Some "s.4.css") [] [].

(** A configuration whose output directory ends with a slash. *)
Definition slashConfig : Config :=
  {| build := Some {| rollupInput := None;
                      buildOutDir := Some "dist/";
                      buildManifest := None |};
     mode := None |}.

(** An entry without [name] whose [src] has no extension. *)
Definition bareEntry : ManifestEntry :=
  entryRecord None (Some "src/theme") (Some "theme.js") [] [].

(** A file system that holds a manifest, whatever the path asked for. *)
Definition sampleFs : FileSystem :=
  {| access := fun _ => true;
     readFile := fun _ => Normal "{}";
     writeFile := fun _ _ => Normal tt;
     unlink := fun _ => Normal tt;
     readdir := fun _ => Normal ["a.min.js"; "b.min.js"; "c.txt"] |}.

Definition sampleResolve (segments : list string) : string :=
  Js.concat (map (fun segment => "/" +:+ segment) segments).

(** ** Further notions *)

(** What a traversal from [node] puts in the set: the [file] of a stylesheet
    record, the [css] of any other record, and whatever its imports put. *)
Inductive contributes (manifest : Manifest) : ManifestEntry -> option string -> Prop :=
| contributes_own_file node :
    isStyles (src node) = true ->
    contributes manifest node (file node)
| contributes_css node cssFile :
    isStyles (src node) = false ->
    cssFile ∈ cssOf node ->
    contributes manifest node (Some cssFile)
| contributes_import node key child x :
    isStyles (src node) = false ->
    key ∈ importsOf node ->
    lookupKey manifest key = Some child ->
    contributes manifest child x ->
    contributes manifest node x.

(** One import of a record that is not a stylesheet. *)
Definition importStep (manifest : Manifest) (a b : ManifestEntry) : Prop :=
  isStyles (src a) = false /\
  exists key, key ∈ importsOf a /\ lookupKey manifest key = Some b.


(** [String.prototype.split] for a one-character separator. *)
Fixpoint splitOn (c : ascii) (s : string) : list string :=
  match s with
  | EmptyString => [EmptyString]
  | String a rest =>
      if Ascii.eqb a c then EmptyString :: splitOn c rest
      else match splitOn c rest with
           | head :: tail => String a head :: tail
           | [] => [String a EmptyString]
           end
  end.

(** ** The URL hook

    [JSON.stringify] on a string, code unit by code unit, and the reading
    of the double-quoted literal it writes. *)

Module Json.

(** One lower-case hexadecimal digit. *)
Definition hexDigit (n : N) : ascii :=
  match n with
  | 0 => "0" | 1 => "1" | 2 => "2" | 3 => "3" | 4 => "4" | 5 => "5" | 6 => "6"
  | 7 => "7" | 8 => "8" | 9 => "9" | 10 => "a" | 11 => "b" | 12 => "c"
  | 13 => "d" | 14 => "e" | _ => "f"
  end%N%char.

Definition backslash : string := String (ascii_of_nat 92) EmptyString.

(** The escape of one code unit in [QuoteJSONString]. *)
Definition escapeChar (c : ascii) : string :=
  let n := N_of_ascii c in
  if (n =? 34)%N then backslash +:+ dquote
  else if (n =? 92)%N then backslash +:+ backslash
  else if (n =? 8)%N then backslash +:+ "b"
  else if (n =? 12)%N then backslash +:+ "f"
  else if (n =? 10)%N then backslash +:+ "n"
  else if (n =? 13)%N then backslash +:+ "r"
  else if (n =? 9)%N then backslash +:+ "t"
  else if (n <? 32)%N then
    backslash +:+ "u00"
    +:+ String (hexDigit (n / 16)) (String (hexDigit (n mod 16)) EmptyString)
  else String c EmptyString.

Fixpoint escape (s : string) : string :=
  match s with
  | EmptyString => EmptyString
  | String c rest => escapeChar c +:+ escape rest
  end.

(** [JSON.stringify] of a string. *)
Definition stringify (s : string) : string := dquote +:+ escape s +:+ dquote.

Definition hexValue (c : ascii) : option N :=
  let n := N_of_ascii c in
  if ((48 <=? n) && (n <=? 57))%N then Some (n - 48)%N
  else if ((97 <=? n) && (n <=? 102))%N then Some (n - 87)%N
  else if ((65 <=? n) && (n <=? 70))%N then Some (n - 55)%N
  else None.

(** Reading the body of a double-quoted string literal, up to and
    including its closing quote, which must end the text. *)
Fixpoint readBody (s : string) : option string :=
  match s with
  | EmptyString => None
  | String c rest =>
      let n := N_of_ascii c in
      if (n =? 34)%N then
        match rest with EmptyString => Some EmptyString | _ => None end
      else if (n =? 92)%N then
        match rest with
        | String e rest' =>
            let m := N_of_ascii e in
            if (m =? 34)%N then String e <$> readBody rest'
            else if (m =? 92)%N then String e <$> readBody rest'
            else if (m =? 98)%N then String (ascii_of_nat 8) <$> readBody rest'
            else if (m =? 102)%N then String (ascii_of_nat 12) <$> readBody rest'
            else if (m =? 110)%N then String (ascii_of_nat 10) <$> readBody rest'
            else if (m =? 114)%N then String (ascii_of_nat 13) <$> readBody rest'
            else if (m =? 116)%N then String (ascii_of_nat 9) <$> readBody rest'
            else if (m =? 117)%N then
              match rest' with
              | String a (String b (String h (String l rest''))) =>
                  match hexValue a, hexValue b, hexValue h, hexValue l with
                  | Some 0%N, Some 0%N, Some hi, Some lo =>
                      String (ascii_of_N (hi * 16 + lo)) <$> readBody rest''
                  | _, _, _, _ => None
                  end
              | _ => None
              end
            else None
        | EmptyString => None
        end
      else if (n <? 32)%N then None
      else String c <$> readBody rest
  end.

(** Reading a whole double-quoted literal. *)
Definition readLiteral (s : string) : option string :=
  match s with
  | String c body => if (N_of_ascii c =? 34)%N then readBody body else None
  | EmptyString => None
  end.

End Json.

Inductive BuiltUrl : Type :=
| Runtime (code : string)
| Relative.

(** [renderBuiltUrl (filename, { hostType })]; [helper] is the name of the
    function the emitted code calls. *)
Definition renderBuiltUrl (helper filename hostType : string) : BuiltUrl :=
  if String.eqb hostType "js"
  then Runtime (helper +:+ "(" +:+ Json.stringify filename +:+ ")")
  else Relative.

(** ** The rest of the configuration hooks *)




(** ** The plugin factory of [dist/index.mjs] *)

Module Plugin.

Record CleanupOptions : Type := {
  cleanupFileNameRegex : option (string -> bool)
}.

Record Options : Type := {
  themeRoot : option string;
  snippetFilename : option string;
  cleanup : option CleanupOptions;
  fileNameRegex : option (string -> bool)
}.

(** [options.cleanup?.fileNameRegex] *)
Definition givenCleanupRegex (options : Options) : option (string -> bool) :=
  c ← cleanup options; cleanupFileNameRegex c.

(** [_options.cleanup.fileNameRegex]: the spread of [options.cleanup],
    then the old-format [options.fileNameRegex] when it is set and
    [options.cleanup?.fileNameRegex] is not. *)
Definition cleanupRegex (options : Options) : option (string -> bool) :=
  match fileNameRegex options, givenCleanupRegex options with
  | Some old, None => Some old
  | _, given => given
  end.

Inductive SubPlugin : Type :=
| ConfigPlugin
| SnippetPlugin (themeRoot snippetFilename : string)
| CleanupPlugin (fileNameRegex : string -> bool).

(** The [name] of each sub-plugin. *)
Definition pluginName (p : SubPlugin) : string :=
  match p with
  | ConfigPlugin => "vite-plugin-for-shopify:config"
  | SnippetPlugin _ _ => "vite-plugin-for-shopify:snippet"
  | CleanupPlugin _ => "vite-plugin-for-shopify:cleanup"
  end.

(** [shopifyVitePlugin] *)
Definition shopifyVitePlugin (options : Options) : list SubPlugin :=
  ([ConfigPlugin;
    SnippetPlugin (default "./" (themeRoot options))
      (default "vite.liquid" (snippetFilename options))]
   ++ match cleanupRegex options with
      | Some regex => [CleanupPlugin regex]
      | None => []
      end)%list.

End Plugin.

(** ** The prologue of the snippet *)

(** The flags [css] and [js] the prologue computes from the parameters of
    the [render] call; a parameter is [true] when it is passed and truthy.
    [[
      assign css = true
      assign js = true
      if only_js  assign css = false  elsif only_css  assign js = false  endif
      if import_mode
        if only_css  assign js = false  else  assign css = false  endif
      endif
    ]] *)
Definition modeFlags (only_js only_css import_mode : bool) : bool * bool :=
  let css := true in
  let js := true in
  let '(css, js) :=
    if only_js then (false, js)
    else if only_css then (css, false)
    else (css, js) in
  if import_mode then
    if only_css then (css, false) else (false, js)
  else (css, js).

(** ** Further sample inputs *)

(** Two modules that import each other, below an entry. *)
Definition cyclicManifest : Manifest :=
  [("src/main.js", entryRecord None (Some "src/main.js") (Some "main.js") [] ["src/a.js"]);
   ("src/a.js", chunkRecord (Some "src/a.js") (Some "a.js") ["a.css"] ["src/b.js"]);
   ("src/b.js", chunkRecord (Some "src/b.js") (Some "b.js") [] ["src/a.js"])].

Definition mainEntry : ManifestEntry :=
  entryRecord None (Some "src/main.js") (Some "main.js") [] ["src/a.js"].

Definition cycleA : ManifestEntry :=
  chunkRecord (Some "src/a.js") (Some "a.js") ["a.css"] ["src/b.js"].

Definition cycleB : ManifestEntry :=
  chunkRecord (Some "src/b.js") (Some "b.js") [] ["src/a.js"].

(** A sound entry, and one that imports a key the manifest lacks. *)
Definition danglingManifest : Manifest :=
  [("src/ok.js", entryRecord None (Some "src/ok.js") (Some "ok.js") ["ok.css"] []);
   ("src/bad.js", entryRecord None (Some "src/bad.js") (Some "bad.js") [] ["src/gone.js"])].

Definition badEntry : ManifestEntry :=
  entryRecord None (Some "src/bad.js") (Some "bad.js") [] ["src/gone.js"].

(** Chunks only: nothing to dispatch on. *)
Definition chunksOnlyManifest : Manifest :=
  [("src/a.js", chunkRecord (Some "src/a.js") (Some "a.js") [] ["src/gone.js"])].

(** * Properties *)

(** ** Strings and patterns *)

Lemma append_empty_l (t : string) : "" +:+ t = t.
Proof. reflexivity. Qed.

Lemma append_cons_l (c : ascii) (p t : string) :
  String c p +:+ t = String c (p +:+ t).
Proof. reflexivity. Qed.

Lemma length_append (s t : string) :
  String.length (s +:+ t) = (String.length s + String.length t)%nat.
Proof.
  induction s as [|c s IH]; [done|].
  rewrite append_cons_l. cbn. by rewrite IH.
Qed.

Lemma substring_prefix (q t : string) :
  String.substring 0 (String.length q) (q +:+ t) = q.
Proof.
  induction q as [|c q IH]; [by destruct t|].
  rewrite append_cons_l. cbn. by rewrite IH.
Qed.

(** [endsWith] is the suffix relation. *)
Lemma endsWith_spec (s p : string) :
  Js.endsWith s p = true <-> exists q, s = q +:+ p.
Proof.
  induction s as [|c s IH]; cbn [Js.endsWith].
  - rewrite orb_false_r, String.eqb_eq. split.
    + intros <-. by exists "".
    + intros [q Hq]. destruct q; [|discriminate]. by rewrite append_empty_l in Hq.
  - rewrite orb_true_iff, String.eqb_eq, IH. split.
    + intros [<- | [q ->]]; [by exists ""|by exists (String c q)].
    + intros [[|c' q] Hq].
      * left. by rewrite append_empty_l in Hq.
      * right. rewrite append_cons_l in Hq. injection Hq as -> ->. eauto.
Qed.

(** [s.slice(0, s.length - 1)] drops the last character. *)
Lemma slice_drop_last (q t : string) :
  String.length t = 1%nat ->
  Js.slice (q +:+ t) 0 (Js.len (q +:+ t) - 1) = q.
Proof.
  intros Ht. unfold Js.slice, Js.sliceIndex, Js.len.
  rewrite length_append, Ht.
  replace (0 <? 0) with false by reflexivity.
  destruct (Z.ltb_spec (Z.of_nat (String.length q + 1) - 1) 0) as [?|_]; [lia|].
  replace (Z.to_nat (0 `min` Z.of_nat (String.length q + 1))) with 0%nat by lia.
  replace (Z.to_nat _) with (String.length q) by lia.
  apply substring_prefix.
Qed.

(** [test] succeeds exactly when the pattern matches at some position. *)
Lemma test_spec (r : Regex.regex) (s : string) :
  Regex.test r s = true <->
  exists p t, s = p +:+ t /\ Regex.matchAt r t (fun _ => true) = true.
Proof.
  induction s as [|c s IH]; cbn [Regex.test].
  - rewrite orb_false_r. split.
    + intros H. exists "", "". auto.
    + intros (p & t & Hs & H). destruct p; [|discriminate].
      rewrite append_empty_l in Hs. by subst t.
  - rewrite orb_true_iff, IH. split.
    + intros [H | (p & t & -> & H)].
      * exists "", (String c s). auto.
      * exists (String c p), t. auto.
    + intros (p & t & Hs & H). destruct p as [|c' p].
      * left. rewrite append_empty_l in Hs. by subst t.
      * right. rewrite append_cons_l in Hs. injection Hs as -> ->. eauto.
Qed.

Ltac ascii_cases :=
  repeat match goal with
    | |- context [Ascii.eqb ?a ?b] => destruct (Ascii.eqb_spec a b); subst; cbn
    end.

(** Anchored at a position, [styleRegex] matches three strings. *)
Lemma matchAt_styleRegex (t : string) :
  Regex.matchAt styleRegex t (fun _ => true) = true <->
  t = ".sass" \/ t = ".scss" \/ t = ".css".
Proof.
  split.
  - destruct t as [|c1 [|c2 [|c3 [|c4 [|c5 [|c6 t]]]]]]; cbn;
      ascii_cases; intros H; try discriminate H; auto.
  - intros [-> | [-> | ->]]; reflexivity.
Qed.

(** C6. The classification predicate holds of a source path exactly when
    the path ends with [.sass], [.scss] or [.css], in that spelling; a
    record without [src] is not a stylesheet. *)
Theorem isStyles_iff_suffix :
  isStyles None = false /\
  forall s : string,
    isStyles (Some s) = true <->
    (exists p, s = p +:+ ".sass") \/ (exists p, s = p +:+ ".scss") \/
    (exists p, s = p +:+ ".css").
Proof.
  split; [reflexivity|].
  intros s. unfold isStyles. cbn [Js.toString]. rewrite test_spec. split.
  - intros (p & t & -> & [-> | [-> | ->]]%matchAt_styleRegex); eauto.
  - intros [[p ->] | [[p ->] | [p ->]]]; eexists p, _;
      (split; [reflexivity|]); reflexivity.
Qed.

(** Upper-case extensions are not stylesheets. *)
Example isStyles_case_sensitive :
  isStyles (Some "theme.CSS") = false /\ isStyles (Some "theme.Scss") = false.
Proof. split; reflexivity. Qed.

(** ** The recorded output directory *)

(** C9, as amended. The single-plugin variant records [build.outDir]
    (['./assets'] when absent) without its last character when that is a
    slash, and unchanged otherwise; the two [configResolved] hooks of
    [dist/index.mjs] record it unchanged. *)
Theorem outDir_recorded (cfg : Config) :
  let configured := default "./assets" (configOutDir cfg) in
  ((forall q, configured = q +:+ "/" -> outDir (Legacy.config initialState cfg) = q) /\
   ((~ exists q, configured = q +:+ "/") ->
    outDir (Legacy.config initialState cfg) = configured)) /\
  Dist.cleanup_configResolved "./assets" cfg = configured /\
  outDir (Dist.snippet_configResolved initialState cfg) = configured.
Proof.
  cbn zeta. split; [|split; reflexivity].
  unfold Legacy.config. cbn [outDir initialState]. split.
  - intros q Hq. rewrite Hq.
    assert (Js.endsWith (q +:+ "/") "/" = true) as -> by (apply endsWith_spec; eauto).
    by apply slice_drop_last.
  - intros Hno. destruct (Js.endsWith _ "/") eqn:E; [|done].
    apply endsWith_spec in E. contradiction.
Qed.

(** C9, as stated, fails in [dist/index.mjs]: an output directory given as
    [dist/] is recorded with its slash by both [configResolved] hooks. *)
Lemma outDir_slash_kept :
  configOutDir slashConfig = Some "dist/" /\
  Dist.cleanup_configResolved "./assets" slashConfig = "dist/" /\
  outDir (Dist.snippet_configResolved initialState slashConfig) = "dist/" /\
  Js.endsWith (outDir (Dist.snippet_configResolved initialState slashConfig)) "/" = true.
Proof. repeat split. Qed.

(** The single-plugin variant removes one slash, not a run of them. *)
Example outDir_double_slash :
  outDir (Legacy.config initialState
            {| build := Some {| rollupInput := None; buildOutDir := Some "dist//";
                                buildManifest := None |};
               mode := None |}) = "dist/".
Proof. reflexivity. Qed.

(** ** Stale asset cleanup *)









(** ** Sets in insertion order *)

Section SetFacts.
Implicit Types (v x : option string) (s : Js.JsSet) (t : list (option string)).

Lemma Set_add_present v s : v ∈ s -> Js.Set_add v s = s.
Proof. intros H. unfold Js.Set_add. by rewrite bool_decide_eq_true_2. Qed.

Lemma Set_add_absent v s : v ∉ s -> Js.Set_add v s = (s ++ [v])%list.
Proof. intros H. unfold Js.Set_add. by rewrite bool_decide_eq_false_2. Qed.

Lemma elem_of_Set_add x v s : x ∈ Js.Set_add v s <-> x = v \/ x ∈ s.
Proof.
  destruct (decide (v ∈ s)) as [Hin | Hout].
  - rewrite Set_add_present by done. split; [by right|]. by intros [-> | ?].
  - rewrite Set_add_absent, elem_of_app, list_elem_of_singleton by done. tauto.
Qed.

Lemma NoDup_Set_add v s : NoDup s -> NoDup (Js.Set_add v s).
Proof.
  intros Hs. destruct (decide (v ∈ s)) as [Hin | Hout].
  - by rewrite Set_add_present.
  - rewrite Set_add_absent by done. apply NoDup_app.
    split_and!; [done| |apply NoDup_singleton].
    intros x Hx ->%list_elem_of_singleton. done.
Qed.

Lemma addEach_cons v t s : addEach (v :: t) s = addEach t (Js.Set_add v s).
Proof. reflexivity. Qed.

Lemma addEach_app t1 t2 s : addEach (t1 ++ t2) s = addEach t2 (addEach t1 s).
Proof. apply foldl_app. Qed.

Lemma addAll_addEach (cssFiles : list string) s :
  addAll cssFiles s = addEach (map Some cssFiles) s.
Proof.
  unfold addAll, addEach. revert s.
  induction cssFiles as [|c l IH]; intros s; [done|]. cbn. apply IH.
Qed.

Lemma NoDup_addEach t s : NoDup s -> NoDup (addEach t s).
Proof.
  revert s. induction t as [|v t IH]; intros s Hs; [done|].
  rewrite addEach_cons. apply IH. by apply NoDup_Set_add.
Qed.

Lemma elem_of_addEach x t s : x ∈ addEach t s <-> x ∈ t \/ x ∈ s.
Proof.
  revert s. induction t as [|v t IH]; intros s.
  - cbn. rewrite elem_of_nil. tauto.
  - rewrite addEach_cons, IH, elem_of_Set_add, elem_of_cons. tauto.
Qed.

(** A run of [add] calls appends, in order, the first occurrence of every
    value the set did not hold. *)
Lemma addEach_firstOccurrences t s :
  addEach t s = (s ++ filter (fun y => y ∉ s) (firstOccurrences t))%list.
Proof.
  revert s. induction t as [|x t IH]; intros s.
  - cbn. by rewrite app_nil_r.
  - rewrite addEach_cons, IH. cbn [firstOccurrences].
    destruct (decide (x ∈ s)) as [Hin | Hout].
    + rewrite Set_add_present by done. f_equal.
      rewrite filter_cons_False by (intros Hx; by apply Hx).
      rewrite list_filter_filter. apply list_filter_iff. intros y.
      destruct (decide (y = x)) as [-> | Hne]; tauto.
    + rewrite Set_add_absent by done. rewrite <- app_assoc. f_equal. cbn [app].
      rewrite filter_cons_True by done. f_equal.
      rewrite list_filter_filter. apply list_filter_iff. intros y.
      rewrite elem_of_app, list_elem_of_singleton. tauto.
Qed.

(** A value first met after the calls [t1] comes right after what [t1]
    contributed, whatever follows. *)
Lemma firstOccurrences_position t1 x t2 :
  x ∉ t1 ->
  exists rest,
    firstOccurrences (t1 ++ x :: t2) = (firstOccurrences t1 ++ x :: rest)%list.
Proof.
  induction t1 as [|y t1 IH]; intros Hx.
  - by eexists.
  - apply not_elem_of_cons in Hx as [Hxy Hx].
    destruct (IH Hx) as [rest Hrest]. cbn [app firstOccurrences].
    rewrite Hrest, filter_app, filter_cons_True by done.
    by eexists.
Qed.

Lemma addEach_empty t : addEach t [] = firstOccurrences t.
Proof.
  rewrite addEach_firstOccurrences. cbn [app].
  induction (firstOccurrences t) as [|y l IH]; [done|].
  rewrite filter_cons_True by apply not_elem_of_nil. by rewrite IH.
Qed.
End SetFacts.

(** ** The import traversal *)

Lemma bind_Normal {A B : Type} (m : Completion A) (f : A -> Completion B) (b : B) :
  m ≫= f = Normal b <-> exists a, m = Normal a /\ f a = Normal b.
Proof.
  destruct m as [a | e]; cbn.
  - split; [eauto|]. by intros (a' & [= <-] & H).
  - split; [done|]. by intros (a' & [=] & _).
Qed.

Section Traversal.
Variable manifest : Manifest.

Lemma forEachImport_calls
    (visit : ManifestEntry -> Js.JsSet -> Completion Js.JsSet)
    (calls : ManifestEntry -> Completion (list (option string))) :
  (forall node s, visit node s = t ← calls node; Normal (addEach t s)) ->
  forall imps s,
    forEachImport visit manifest imps s =
    t ← forEachImportCalls calls manifest imps; Normal (addEach t s).
Proof.
  intros Hvisit. induction imps as [|imp rest IH]; intros s; [done|].
  cbn [forEachImport forEachImportCalls].
  destruct (lookupKey manifest imp) as [child|]; [|done].
  rewrite Hvisit. destruct (calls child) as [here|e]; [|done].
  cbn. rewrite IH.
  destruct (forEachImportCalls calls manifest rest) as [later|e]; [|done].
  cbn. by rewrite addEach_app.
Qed.

(** The traversal is its sequence of [add] calls, performed on the set it
    was given; it throws what the sequence throws. *)
Lemma handleEntryImports_addCalls (depth : nat) (node : ManifestEntry) (s : Js.JsSet) :
  handleEntryImports depth manifest node s =
  t ← addCalls depth manifest node; Normal (addEach t s).
Proof.
  revert node s. induction depth as [|depth IH]; intros node s; [done|].
  cbn [handleEntryImports addCalls].
  destruct (isStyles (src node)); [done|].
  rewrite (forEachImport_calls _ (addCalls depth manifest)) by apply IH.
  destruct (forEachImportCalls _ manifest (importsOf node)) as [later|e]; [|done].
  cbn. by rewrite addEach_app, addAll_addEach.
Qed.

Lemma handleEntryImports_mono depth node s s' :
  handleEntryImports depth manifest node s = Normal s' -> s ⊆ s'.
Proof.
  rewrite handleEntryImports_addCalls, bind_Normal.
  intros (t & _ & [= <-]) x Hx. apply elem_of_addEach. by right.
Qed.

Lemma forEachImport_mono visit imps s s' :
  (forall node a b, visit node a = Normal b -> a ⊆ b) ->
  forEachImport visit manifest imps s = Normal s' -> s ⊆ s'.
Proof.
  intros Hvisit. revert s. induction imps as [|imp rest IH]; intros s; cbn.
  - by intros [= <-].
  - destruct (lookupKey manifest imp) as [child|]; [|done].
    intros (mid & Hmid & Hrest)%bind_Normal.
    etrans; [by eapply Hvisit|by apply IH].
Qed.

(** Every import of a completed loop was visited, and what its visit left
    in the set is still there at the end. *)
Lemma forEachImport_visited visit imps s s' key child :
  (forall node a b, visit node a = Normal b -> a ⊆ b) ->
  forEachImport visit manifest imps s = Normal s' ->
  key ∈ imps -> lookupKey manifest key = Some child ->
  exists a b, visit child a = Normal b /\ b ⊆ s'.
Proof.
  intros Hvisit. revert s.
  induction imps as [|imp rest IH]; intros s Hrun Hkey Hchild.
  - by apply elem_of_nil in Hkey.
  - cbn in Hrun. apply elem_of_cons in Hkey as [<- | Hkey].
    + rewrite Hchild in Hrun. apply bind_Normal in Hrun as (mid & Hmid & Hrest).
      exists s, mid. split; [done|]. by eapply forEachImport_mono.
    + destruct (lookupKey manifest imp) as [other|]; [|done].
      apply bind_Normal in Hrun as (mid & Hmid & Hrest). by eapply IH.
Qed.

Lemma reachesStyle_collected node target :
  reachesStyle manifest node target ->
  forall depth s s',
    handleEntryImports depth manifest node s = Normal s' ->
    file target ∈ s'.
Proof.
  induction 1 as [node key target Hnode Hkey Hlook Htarget
                 |node key mid target Hnode Hkey Hlook _ IH];
    intros [|depth] s s' Hrun; try done;
    cbn [handleEntryImports] in Hrun; rewrite Hnode in Hrun;
    destruct (forEachImport_visited _ _ _ _ _ _
                (handleEntryImports_mono depth) Hrun Hkey Hlook)
      as (a & b & Hvisit & Hsub);
    apply Hsub.
  - destruct depth as [|depth]; [done|].
    cbn [handleEntryImports] in Hvisit. rewrite Htarget in Hvisit.
    injection Hvisit as <-. apply elem_of_Set_add. by left.
  - by eapply IH.
Qed.

Lemma forEachImportCalls_returns
    (calls : ManifestEntry -> Completion (list (option string))) imps :
  (exists t, forEachImportCalls calls manifest imps = Normal t) <->
  forall key, key ∈ imps ->
    exists child, lookupKey manifest key = Some child /\
                  exists t, calls child = Normal t.
Proof.
  induction imps as [|imp rest IH]; cbn [forEachImportCalls].
  - split; [|by eexists]. intros _ key Hkey. by apply elem_of_nil in Hkey.
  - split.
    + intros [t Ht] key Hkey.
      destruct (lookupKey manifest imp) as [child|] eqn:Hchild; [|done].
      apply bind_Normal in Ht as (here & Hhere & Ht).
      apply bind_Normal in Ht as (later & Hlater & _).
      apply elem_of_cons in Hkey as [-> | Hkey]; [by eauto|].
      apply IH; eauto.
    + intros Hall.
      destruct (Hall imp) as (child & -> & here & Hhere); [by left|].
      destruct IH as [_ [later Hlater]].
      { intros key Hkey. apply Hall. by right. }
      exists (here ++ later)%list. by rewrite Hhere, Hlater.
Qed.

Lemma addCalls_returns depth node :
  importsResolve depth manifest node <->
  exists t, addCalls depth manifest node = Normal t.
Proof.
  revert node. induction depth as [|depth IH]; intros node.
  - split; [done|]. by intros [t Ht].
  - cbn [importsResolve addCalls].
    destruct (isStyles (src node)) eqn:Hstyle.
    + split; [by eexists|by left].
    + split.
      * intros [?|Hall]; [done|].
        destruct (forEachImportCalls_returns (addCalls depth manifest) (importsOf node))
          as [_ [later Hlater]].
        { intros key Hkey. destruct (Hall key Hkey) as (child & Hchild & Hres).
          exists child. split; [done|]. by apply IH. }
        rewrite Hlater. by eexists.
      * intros [t Ht]. right. intros key Hkey.
        apply bind_Normal in Ht as (later & Hlater & _).
        destruct (forEachImportCalls_returns (addCalls depth manifest) (importsOf node))
          as [Hall _].
        destruct (Hall (ex_intro _ later Hlater) key Hkey) as (child & Hchild & Hres).
        exists child. split; [done|]. by apply IH.
Qed.

(** The traversal returns exactly when every chain of imports resolves
    within the depth it was given, whatever the set it starts from. *)
Lemma handleEntryImports_returns depth node s :
  importsResolve depth manifest node <->
  exists s', handleEntryImports depth manifest node s = Normal s'.
Proof.
  rewrite addCalls_returns, handleEntryImports_addCalls. split.
  - intros [t ->]. by eexists.
  - intros [s' (t & Ht & _)%bind_Normal]. eauto.
Qed.
End Traversal.

(** ** Entry resolutions *)

Lemma resolveEntry_Normal depth byPath manifest e r :
  resolveEntry depth byPath manifest e = Normal r <->
  exists n styles,
    entryNameOf byPath e = Normal n /\
    handleEntryImports depth manifest e [] = Normal styles /\
    r = {| entryName := n;
           styleFiles := styles;
           jsFiles := if isStyles (src e) then [] else Js.Set_add (file e) [] |}.
Proof.
  unfold resolveEntry. rewrite bind_Normal. split.
  - intros (n & Hn & (styles & Hstyles & [= <-])%bind_Normal). eauto.
  - intros (n & styles & Hn & Hstyles & ->). exists n. split; [done|].
    by rewrite Hstyles.
Qed.

(** An entry resolves exactly when it can be named and every chain of
    imports from it resolves within the depth. *)
Lemma resolveEntry_returns depth byPath manifest e :
  (exists r, resolveEntry depth byPath manifest e = Normal r) <->
  (exists n, entryNameOf byPath e = Normal n) /\ importsResolve depth manifest e.
Proof.
  rewrite (handleEntryImports_returns manifest depth e []). split.
  - intros [r (n & styles & Hn & Hstyles & _)%resolveEntry_Normal]. eauto.
  - intros [[n Hn] [styles Hstyles]]. eexists. apply resolveEntry_Normal. eauto.
Qed.


(** The specification's scenario: one resolution, named [theme] after the
    configured input, with the entry's stylesheet and its own script. *)
Example scenario_resolution :
  resolveAll 4 (entryNameByPath scenarioInput) scenarioManifest
    (manifestValues scenarioManifest)
  = Normal [{| entryName := "theme";
               styleFiles := [Some "theme.css"];
               jsFiles := [Some "theme.abc123.js"] |}].
Proof. reflexivity. Qed.

(** C2. When the entry's own source is not a stylesheet and its resolution
    completes, the [file] of every stylesheet record reachable from it along
    imports through non-stylesheet records is in its style set. *)
Theorem style_transitivity depth byPath manifest e r target :
  isStyles (src e) = false ->
  resolveEntry depth byPath manifest e = Normal r ->
  reachesStyle manifest e target ->
  file target ∈ styleFiles r.
Proof.
  intros _ (n & styles & _ & Hrun & ->)%resolveEntry_Normal Hreach.
  cbn [styleFiles]. by eapply reachesStyle_collected.
Qed.

(** The stylesheet two hops away from [src/app.js] is in its style set. *)
Lemma style_transitivity_witness :
  exists r,
    resolveEntry 4 (entryNameByPath []) twoHopManifest appEntry = Normal r /\
    Some "s.4.css" ∈ styleFiles r.
Proof.
  eexists. split; [reflexivity|].
  apply (style_transitivity 4 (entryNameByPath []) twoHopManifest appEntry _ sheetRecord).
  - reflexivity.
  - reflexivity.
  - apply (reaches_through _ appEntry "src/a.js"
             (chunkRecord (Some "src/a.js") (Some "a.2.js") ["shared.css"] ["src/s.scss"]));
      [reflexivity|by left|reflexivity|].
    apply (reaches_direct _ _ "src/s.scss"); [reflexivity|by left|reflexivity..].
Defined.

(** C3. An entry whose own source is a stylesheet resolves, whatever its
    [css] and [imports] hold, to the style set of its own [file] alone and
    an empty script set; the traversal makes that one [add] call. *)
Theorem leaf_stylesheet depth byPath manifest e :
  isStyles (src e) = true ->
  exists n,
    entryNameOf byPath e = Normal n /\
    resolveEntry (S depth) byPath manifest e
      = Normal {| entryName := n; styleFiles := [file e]; jsFiles := [] |} /\
    addCalls (S depth) manifest e = Normal [file e].
Proof.
  intros Hstyle.
  assert (exists n, entryNameOf byPath e = Normal n) as [n Hn].
  { unfold entryNameOf. destruct (name e); [by eexists|].
    destruct (byPath !! _); [by eexists|].
    destruct (src e); [by eexists|]. discriminate Hstyle. }
  exists n. split; [done|].
  unfold resolveEntry. rewrite Hn. cbn. by rewrite Hstyle.
Qed.

Lemma leaf_stylesheet_witness :
  resolveEntry 1 (entryNameByPath []) twoHopManifest pageEntry
  = Normal {| entryName := "page"; styleFiles := [Some "page.5.css"]; jsFiles := [] |}.
Proof.
  destruct (leaf_stylesheet 0 (entryNameByPath []) twoHopManifest pageEntry eq_refl)
    as (n & Hn & Hr & _).
  injection Hn as <-. exact Hr.
Defined.

(** C4. The style list of a resolution has no repetition and is the list of
    first occurrences among the traversal's [add] calls, in call order;
    adding a value the set holds leaves the set as it is. *)
Theorem style_dedup_order depth byPath manifest e r :
  resolveEntry depth byPath manifest e = Normal r ->
  NoDup (styleFiles r) /\
  (exists calls,
     addCalls depth manifest e = Normal calls /\
     styleFiles r = firstOccurrences calls) /\
  (forall v s, v ∈ s -> Js.Set_add v s = s).
Proof.
  intros (n & styles & _ & Hrun & ->)%resolveEntry_Normal. cbn [styleFiles].
  rewrite handleEntryImports_addCalls in Hrun.
  apply bind_Normal in Hrun as (calls & Hcalls & [= <-]).
  split_and!.
  - apply NoDup_addEach, NoDup_nil_2.
  - exists calls. split; [done|]. apply addEach_empty.
  - apply Set_add_present.
Qed.

(** [shared.css] is declared by two imported modules and listed once, where
    the first of them put it. *)
Lemma style_dedup_order_witness :
  exists r,
    resolveEntry 4 (entryNameByPath []) twoHopManifest appEntry = Normal r /\
    addCalls 4 twoHopManifest appEntry
    = Normal [Some "app.css"; Some "shared.css"; Some "s.4.css";
              Some "shared.css"; Some "b.css"] /\
    styleFiles r = [Some "app.css"; Some "shared.css"; Some "s.4.css"; Some "b.css"] /\
    NoDup (styleFiles r).
Proof.
  eexists. split; [reflexivity|].
  destruct (style_dedup_order 4 (entryNameByPath []) twoHopManifest appEntry _ eq_refl)
    as (Hnodup & (calls & Hcalls & Hstyles) & _).
  split; [reflexivity|]. split; [reflexivity|]. exact Hnodup.
Defined.







(** ** The bundle-close hook *)

Section CloseBundleFacts.
Variable resolve : list string -> string.
Variable JSON_parse : string -> Completion Manifest.
Variables snippetStart snippetEnd : string.
Variable fs : FileSystem.

(** Take the hook apart along the answers it gets. *)
Ltac run_hook :=
  unfold closeBundle, generate, generated;
  cbn zeta;
  repeat first
    [ progress cbn [mbind IO_bind lift tryCatch fst snd negb app mret IO_ret]
    | match goal with
      | |- context [access fs ?p] => destruct (access fs p) eqn:?
      | |- context [readFile fs ?p] => destruct (readFile fs p) as [?|?] eqn:?
      | |- context [JSON_parse ?s] => destruct (JSON_parse s) as [?|?] eqn:?
      | |- context [resolveAll ?d ?b ?m ?v] => destruct (resolveAll d b m v) as [?|?] eqn:?
      | |- context [writeFile fs ?p ?t] => destruct (writeFile fs p t) as [[]|?] eqn:?
      | |- context [unlink fs ?p] => destruct (unlink fs p) as [[]|?] eqn:?
      | |- context [if ?b then _ else _] => is_var b; destruct b
      end ].


(** A manifest that is there, reads, parses and resolves has its snippet
    written. *)
Lemma closeBundle_writes_when depth st isDev snippetPath manifestFile manifest rs :
  access fs (resolve [outDir st; manifestFilename st]) = true ->
  readFile fs (resolve [outDir st; manifestFilename st]) = Normal manifestFile ->
  JSON_parse manifestFile = Normal manifest ->
  resolveAll depth (entryNameByPath (input st)) manifest (manifestValues manifest)
    = Normal rs ->
  CallWriteFile snippetPath (snippetText snippetStart snippetEnd (map branchOf rs))
    ∈ (closeBundle resolve JSON_parse snippetStart snippetEnd fs depth st isDev
         snippetPath).1.
Proof.
  intros Hacc Hread Hparse Hrs. unfold closeBundle, generate.
  cbn zeta. rewrite Hacc, Hread. cbn [negb mbind IO_bind lift].
  rewrite Hparse, Hrs.
  destruct (writeFile fs snippetPath _) as [[]|err]; [destruct isDev|];
    [|destruct (unlink fs _) as [[]|err]|]; by left.
Qed.

(** The hook ends normally; it asks for the manifest to be removed exactly
    when the generation got as far as a written snippet and the mode is
    not the development one; it removes nothing else; and a generation
    that did not get that far is reported on the console. *)
Lemma closeBundle_contract depth st isDev snippetPath :
  let manifestPath := resolve [outDir st; manifestFilename st] in
  let run := closeBundle resolve JSON_parse snippetStart snippetEnd fs depth st isDev snippetPath in
  run.2 = Normal tt /\
  (CallUnlink manifestPath ∈ run.1 <-> generated resolve JSON_parse snippetStart snippetEnd fs depth st snippetPath /\ isDev = false) /\
  (forall path, CallUnlink path ∈ run.1 -> path = manifestPath) /\
  (access fs manifestPath = true -> ~ generated resolve JSON_parse snippetStart snippetEnd fs depth st snippetPath ->
   exists err, CallConsoleError err ∈ run.1).
Proof.
  run_hook.
  all: split_and!; [done| | |].
  all: try (intros path; rewrite ?elem_of_cons, ?elem_of_nil; intros H;
            repeat (destruct H as [H | H]); try done; by injection H).
  all: try (intros _ Hno; first
              [ by eexists; rewrite ?elem_of_cons; eauto
              | exfalso; apply Hno; split; [done|]; by eauto 10 ]).
  all: split;
    [ rewrite ?elem_of_cons, ?elem_of_nil; intros H;
      repeat (destruct H as [H | H]);
      first [ done
            | split; [split; [done|]|done];
              eexists _, _, _; split_and!; [reflexivity|eassumption..] ]
    | intros [(? & mf & m & rs & ? & ? & ? & ?) ?];
      first [ congruence | rewrite ?elem_of_cons; by auto ] ].
Qed.
End CloseBundleFacts.



(** C7. In both variants the hook asks for the manifest file to be removed
    exactly when the file was read, parsed and resolved and the snippet
    written, all without error, and the mode is not ['development']; it
    removes no other file; no error leaves the hook; and when the
    generation fails the error goes to the console and the manifest stays. *)
Theorem manifest_removal (resolve : list string -> string)
    (JSON_parse : string -> Completion Manifest) (snippetStart snippetEnd : string)
    (fs : FileSystem) (depth : nat) (st : PluginState) (mode : option string)
    (themeRoot snippetFilename : string) :
  let manifestPath := resolve [outDir st; manifestFilename st] in
  let contract (run : IO unit) (snippetPath : string) :=
    let done := generated resolve JSON_parse snippetStart snippetEnd fs depth st
                  snippetPath in
    run.2 = Normal tt /\
    (CallUnlink manifestPath ∈ run.1 <-> done /\ mode <> Some "development") /\
    (forall path, CallUnlink path ∈ run.1 -> path = manifestPath) /\
    (access fs manifestPath = true -> ~ done ->
     (exists err, CallConsoleError err ∈ run.1) /\ CallUnlink manifestPath ∉ run.1) in
  contract
    (Dist.closeBundle resolve JSON_parse snippetStart snippetEnd fs depth st mode
       themeRoot snippetFilename)
    (Dist.snippetPath resolve themeRoot snippetFilename) /\
  contract
    (Legacy.closeBundle resolve JSON_parse snippetStart snippetEnd fs depth st mode
       themeRoot snippetFilename)
    (Legacy.snippetPath resolve themeRoot snippetFilename).
Proof.
  intros manifestPath contract.
  assert (forall snippetPath,
            contract (closeBundle resolve JSON_parse snippetStart snippetEnd fs depth st
                        (isDevelopment mode) snippetPath) snippetPath) as Hboth.
  { intros snippetPath. unfold contract.
    destruct (closeBundle_contract resolve JSON_parse snippetStart snippetEnd fs depth st
                (isDevelopment mode) snippetPath) as (Hend & Hiff & Honly & Hlog).
    unfold isDevelopment in Hiff. rewrite bool_decide_eq_false in Hiff.
    split_and!; [done..|].
    intros Hacc Hno. split; [by apply Hlog|].
    intros Hin. apply Hiff in Hin as [? _]. done. }
  split; apply Hboth.
Qed.

(** ** Entry names *)

Lemma len_append (s t : string) : Js.len (s +:+ t) = Js.len s + Js.len t.
Proof. unfold Js.len. rewrite length_append. lia. Qed.

Lemma len_nonneg (s : string) : 0 <= Js.len s.
Proof. unfold Js.len. lia. Qed.

Lemma lastIndexOf_bounds (s : string) (c : ascii) :
  -1 <= Js.lastIndexOf s c < Js.len s.
Proof.
  induction s as [|a s IH]; [done|].
  cbn [Js.lastIndexOf]. unfold Js.len in *. cbn [String.length].
  destruct (Z.leb_spec 0 (Js.lastIndexOf s c)); [lia|].
  destruct (Ascii.eqb a c); lia.
Qed.

Lemma lastIndexOf_append (a b : string) (c : ascii) :
  Js.lastIndexOf (a +:+ b) c =
  if 0 <=? Js.lastIndexOf b c then Js.len a + Js.lastIndexOf b c
  else Js.lastIndexOf a c.
Proof.
  induction a as [|x a IH].
  - rewrite append_empty_l. cbn [Js.lastIndexOf].
    destruct (Z.leb_spec 0 (Js.lastIndexOf b c)) as [?|?]; [done|].
    pose proof (lastIndexOf_bounds b c). lia.
  - rewrite append_cons_l. cbn [Js.lastIndexOf]. rewrite IH.
    pose proof (lastIndexOf_bounds a c). pose proof (len_nonneg a).
    replace (Js.len (String x a)) with (Js.len a + 1)
      by (unfold Js.len; cbn [String.length]; lia).
    destruct (Z.leb_spec 0 (Js.lastIndexOf b c)).
    + destruct (Z.leb_spec 0 (Js.len a + Js.lastIndexOf b c)); lia.
    + done.
Qed.

Lemma substring_skip (p s : string) (n : nat) :
  String.substring (String.length p) n (p +:+ s) = String.substring 0 n s.
Proof.
  induction p as [|c p IH]; [done|]. rewrite append_cons_l. cbn. apply IH.
Qed.

Lemma substring_middle (p s t : string) :
  Js.substring (p +:+ s +:+ t) (Js.len p) (Js.len p + Js.len s) = s.
Proof.
  unfold Js.substring, Js.clamp. rewrite !len_append.
  pose proof (len_nonneg p). pose proof (len_nonneg s). pose proof (len_nonneg t).
  replace (Z.to_nat _) with (String.length p) by (unfold Js.len in *; lia).
  replace (Z.to_nat _) with (String.length s) by (unfold Js.len in *; lia).
  rewrite substring_skip. apply substring_prefix.
Qed.

(** On a source path made of a directory part (empty, or ending in a
    slash), a stem and an extension, [stemOf] is the stem. *)
Lemma stemOf_spec (dir stem ext : string) :
  (dir = "" \/ exists d, dir = d +:+ "/") ->
  Js.lastIndexOf stem "/" = -1 ->
  Js.lastIndexOf ext "/" = -1 ->
  Js.lastIndexOf ext "." = -1 ->
  stemOf (dir +:+ stem +:+ "." +:+ ext) = stem.
Proof.
  intros Hdir Hstem Hext Hdot. unfold stemOf.
  assert (Js.lastIndexOf (dir +:+ stem +:+ "." +:+ ext) "/" + 1 = Js.len dir) as ->.
  { rewrite !lastIndexOf_append, Hstem, Hext. cbn [Js.lastIndexOf Ascii.eqb].
    cbn. destruct Hdir as [-> | [d ->]]; [done|].
    rewrite lastIndexOf_append, len_append. cbn.
    change (Js.len "/") with 1. lia. }
  assert (Js.lastIndexOf (dir +:+ stem +:+ "." +:+ ext) "." = Js.len dir + Js.len stem) as ->.
  { rewrite (lastIndexOf_append dir), (lastIndexOf_append stem).
    rewrite (lastIndexOf_append "." ext), Hdot. cbn.
    pose proof (len_nonneg stem).
    destruct (Z.leb_spec 0 (Js.len stem + 0)); [|lia].
    destruct (Z.leb_spec 0 (Js.len stem + 0)); lia. }
  apply substring_middle.
Qed.

Lemma append_empty_r (p : string) : p +:+ "" = p.
Proof.
  induction p as [|c p IH]; [done|]. rewrite append_cons_l. by rewrite IH.
Qed.

Lemma normalizePath_dot_slash (p : string) : normalizePath ("./" +:+ p) = p.
Proof.
  unfold normalizePath, Js.startsWith, Js.substringFrom.
  replace (String.prefix "./" ("./" +:+ p)) with true
    by (cbn; by destruct p).
  pose proof (substring_middle "./" p "") as H.
  rewrite append_empty_r in H. by rewrite len_append.
Qed.

Lemma entryNameByPath_snoc (input : list (string * string)) (key path : string) :
  entryNameByPath (input ++ [(key, path)])
  = <[normalizePath path := key]> (entryNameByPath input).
Proof. unfold entryNameByPath. by rewrite foldl_app. Qed.

(** No configured input has the path: no name is found by path. *)
Lemma entryNameByPath_None (input : list (string * string)) (p : string) :
  entryNameByPath input !! p = None <->
  forall kv, kv ∈ input -> normalizePath kv.2 <> p.
Proof.
  induction input as [|[key path] input IH] using rev_ind.
  - split; [|done]. intros _ kv Hkv. by apply elem_of_nil in Hkv.
  - rewrite entryNameByPath_snoc, lookup_insert_None, IH. split.
    + intros [Hrest Hlast] kv [Hkv | ->%list_elem_of_singleton]%elem_of_app; auto.
    + intros Hall. split.
      * intros kv Hkv. apply Hall, elem_of_app. by left.
      * apply (Hall (key, path)), elem_of_app. right. by left.
Qed.

(** Of the configured inputs with the path, the last one gives the name. *)
Lemma entryNameByPath_last (before after : list (string * string)) (key path : string) :
  (forall kv, kv ∈ after -> normalizePath kv.2 <> normalizePath path) ->
  entryNameByPath (before ++ (key, path) :: after) !! normalizePath path = Some key.
Proof.
  induction after as [|[key' path'] after IH] using rev_ind; intros Hafter.
  - by rewrite entryNameByPath_snoc, lookup_insert_eq.
  - rewrite app_comm_cons, app_assoc, entryNameByPath_snoc.
    rewrite lookup_insert_ne.
    + apply IH. intros kv Hkv. apply Hafter, elem_of_app. by left.
    + apply (Hafter (key', path')), elem_of_app. right. by left.
Qed.

(** The fallback chain on a source path of the usual shape: the manifest's
    [name]; else the key of the last configured input with that path; else
    the stem. *)
Lemma entryNameOf_chain (input : list (string * string)) (e : ManifestEntry)
    (dir stem ext : string) :
  src e = Some (dir +:+ stem +:+ "." +:+ ext) ->
  (dir = "" \/ exists d, dir = d +:+ "/") ->
  Js.lastIndexOf stem "/" = -1 ->
  Js.lastIndexOf ext "/" = -1 ->
  Js.lastIndexOf ext "." = -1 ->
  (forall n, name e = Some n -> entryNameOf (entryNameByPath input) e = Normal n) /\
  (forall before key path after,
     name e = None ->
     input = (before ++ (key, path) :: after)%list ->
     normalizePath path = dir +:+ stem +:+ "." +:+ ext ->
     (forall kv, kv ∈ after -> normalizePath kv.2 <> normalizePath path) ->
     entryNameOf (entryNameByPath input) e = Normal key) /\
  (name e = None ->
   (forall kv, kv ∈ input -> normalizePath kv.2 <> dir +:+ stem +:+ "." +:+ ext) ->
   entryNameOf (entryNameByPath input) e = Normal stem).
Proof.
  intros Hsrc Hdir Hstem Hext Hdot. unfold entryNameOf. rewrite Hsrc. cbn [Js.toString].
  split_and!.
  - by intros n ->.
  - intros before key path after -> -> <- Hafter.
    by rewrite entryNameByPath_last.
  - intros -> Hnone. apply entryNameByPath_None in Hnone. rewrite Hnone.
    by rewrite stemOf_spec.
Qed.

(** The specification's example: [src/theme.js], no [name], no configured
    input for it. *)
Example entryName_theme :
  entryNameOf (entryNameByPath [("other", "./src/other.js")])
    (entryRecord None (Some "src/theme.js") (Some "theme.abc123.js") [] [])
  = Normal "theme".
Proof. reflexivity. Qed.

(** C5, at a source path without extension. The entry [src/theme], with no
    [name] and no configured input, is named [src/]: [lastIndexOf('.')] is
    [-1], and [substring] takes the smaller of its two arguments as the
    start.  The branch opens with [when 'src/'].  Likewise
    [src/v1.2/theme], whose last dot comes before its last slash, is named
    [.2/], delimiters included. *)
Theorem entryName_extensionless_source :
  Js.lastIndexOf "src/theme" "/" + 1 = 4 /\
  Js.lastIndexOf "src/theme" "." = -1 /\
  stemOf "src/theme" = "src/" /\
  entryNameOf (entryNameByPath []) bareEntry = Normal "src/" /\
  resolveAll 1 (entryNameByPath []) [("src/theme", bareEntry)] [bareEntry]
  = Normal [{| entryName := "src/"; styleFiles := []; jsFiles := [Some "theme.js"] |}] /\
  map branchOf
    [{| entryName := "src/"; styleFiles := []; jsFiles := [Some "theme.js"] |}]
  = [nl +:+ "    when 'src/'" +:+ nl +:+ "      assign js_files = " +:+ dquote
     +:+ "theme.js" +:+ dquote] /\
  entryNameOf (entryNameByPath [])
    (entryRecord None (Some "src/v1.2/theme") (Some "theme.js") [] [])
  = Normal ".2/".
Proof. repeat split. Qed.

(** * Further properties *)

(** ** What the traversal collects *)

Section TraversalMore.
Variable manifest : Manifest.

Lemma forEachImportCalls_elem
    (calls : ManifestEntry -> Completion (list (option string))) imps later x :
  forEachImportCalls calls manifest imps = Normal later ->
  x ∈ later <->
  exists key child t,
    key ∈ imps /\ lookupKey manifest key = Some child /\
    calls child = Normal t /\ x ∈ t.
Proof.
  revert later. induction imps as [|imp rest IH]; intros later; cbn [forEachImportCalls].
  - intros [= <-]. split; [by intros ?%elem_of_nil|].
    by intros (key & ? & ? & ?%elem_of_nil & _).
  - destruct (lookupKey manifest imp) as [child|] eqn:Hchild; [|done].
    intros (here & Hhere & (rest' & Hrest & [= <-])%bind_Normal)%bind_Normal.
    rewrite elem_of_app, (IH _ Hrest). split.
    + intros [Hx | (key & child' & t & Hkey & ? & ? & ?)].
      * exists imp, child, here. split_and!; [by left|done..].
      * exists key, child', t. split_and!; [by right|done..].
    + intros (key & child' & t & [-> | Hkey]%elem_of_cons & Hlook & Ht & Hx).
      * left. congruence.
      * right. eauto 10.
Qed.

Lemma addCalls_contributes depth node t x :
  addCalls depth manifest node = Normal t ->
  x ∈ t <-> contributes manifest node x.
Proof.
  intros Ht. split.
  - revert node t Ht. induction depth as [|depth IH]; intros node t Ht Hx; [done|].
    cbn [addCalls] in Ht. destruct (isStyles (src node)) eqn:Hstyle.
    + injection Ht as <-. apply list_elem_of_singleton in Hx as ->. by constructor.
    + apply bind_Normal in Ht as (later & Hlater & [= <-]).
      apply elem_of_app in Hx as [Hx | Hx].
      * apply list_elem_of_fmap in Hx as (c & -> & Hc). by constructor.
      * apply (forEachImportCalls_elem _ _ _ _ Hlater) in Hx
          as (key & child & t' & Hkey & Hlook & Ht' & Hx).
        eapply contributes_import; eauto.
  - intros Hc. revert depth t Ht.
    induction Hc as [node Hstyle|node c Hstyle Hc|node key child x Hstyle Hkey Hlook _ IH];
      intros [|depth] t Ht; try done; cbn [addCalls] in Ht; rewrite Hstyle in Ht.
    + injection Ht as <-. by left.
    + apply bind_Normal in Ht as (later & _ & [= <-]).
      apply elem_of_app. left. apply list_elem_of_fmap. eauto.
    + apply bind_Normal in Ht as (later & Hlater & [= <-]).
      apply elem_of_app. right.
      assert (exists t', addCalls depth manifest child = Normal t') as [t' Ht'].
      { destruct (forEachImportCalls_returns manifest (addCalls depth manifest)
                    (importsOf node)) as [Hall _].
        destruct (Hall (ex_intro _ later Hlater) key Hkey) as (child' & Hlook' & Hres).
        rewrite Hlook in Hlook'. by injection Hlook' as <-. }
      apply (forEachImportCalls_elem _ _ _ _ Hlater).
      exists key, child, t'. split_and!; [done..|]. by eapply IH.
Qed.

Lemma resolveEntry_calls depth byPath e r :
  resolveEntry depth byPath manifest e = Normal r ->
  exists calls,
    addCalls depth manifest e = Normal calls /\ styleFiles r = firstOccurrences calls.
Proof.
  intros (n & styles & _ & Hrun & ->)%resolveEntry_Normal. cbn [styleFiles].
  rewrite handleEntryImports_addCalls in Hrun.
  apply bind_Normal in Hrun as (calls & Hcalls & [= <-]).
  exists calls. split; [done|]. apply addEach_empty.
Qed.

Lemma elem_of_firstOccurrences (t : list (option string)) x :
  x ∈ firstOccurrences t <-> x ∈ t.
Proof. rewrite <- addEach_empty, elem_of_addEach, elem_of_nil. tauto. Qed.

(** X1. The style set of a completed resolution holds exactly what the
    traversal from the entry contributes: the own file of every stylesheet
    record met, and the [css] of every other record met, the entry included. *)
Theorem style_set_exact depth byPath e r x :
  resolveEntry depth byPath manifest e = Normal r ->
  x ∈ styleFiles r <-> contributes manifest e x.
Proof.
  intros Hr. destruct (resolveEntry_calls _ _ _ _ Hr) as (calls & Hcalls & ->).
  rewrite elem_of_firstOccurrences. by eapply addCalls_contributes.
Qed.

Lemma firstOccurrences_app (a b : list (option string)) :
  firstOccurrences (a ++ b)
  = (firstOccurrences a ++ filter (fun y => y ∉ firstOccurrences a) (firstOccurrences b))%list.
Proof.
  rewrite <- !addEach_empty, addEach_app, addEach_firstOccurrences.
  by rewrite !addEach_empty.
Qed.

(** X2. The [css] of an entry that is not a stylesheet come first in its
    style list, in their own order, before anything its imports add. *)
Theorem own_css_first depth byPath e r :
  isStyles (src e) = false ->
  resolveEntry depth byPath manifest e = Normal r ->
  firstOccurrences (map Some (cssOf e)) `prefix_of` styleFiles r.
Proof.
  intros Hstyle Hr. destruct (resolveEntry_calls _ _ _ _ Hr) as (calls & Hcalls & ->).
  destruct depth as [|depth]; [done|].
  cbn [addCalls] in Hcalls. rewrite Hstyle in Hcalls.
  apply bind_Normal in Hcalls as (later & _ & [= <-]).
  rewrite firstOccurrences_app. by eexists.
Qed.

(* cycles *)
Lemma importsResolve_step depth a b :
  importsResolve (S depth) manifest a -> importStep manifest a b ->
  importsResolve depth manifest b.
Proof.
  intros [Hstyle | Hall] [Hscript (key & Hkey & Hlook)]; [congruence|].
  destruct (Hall key Hkey) as (child & Hlook' & Hres).
  rewrite Hlook in Hlook'. by injection Hlook' as <-.
Qed.

Lemma importsResolve_S depth node :
  importsResolve depth manifest node -> importsResolve (S depth) manifest node.
Proof.
  revert node. induction depth as [|depth IH]; intros node; [done|].
  intros [Hstyle | Hall]; [by left|]. right. intros key Hkey.
  destruct (Hall key Hkey) as (child & Hlook & Hres). eauto.
Qed.

Lemma importsResolve_le depth depth' node :
  (depth <= depth')%nat ->
  importsResolve depth manifest node -> importsResolve depth' manifest node.
Proof. induction 1 as [|? ? IH]; [done|]. intros Hres. by apply importsResolve_S, IH. Qed.

Lemma importsResolve_reach depth a b :
  rtc (importStep manifest) a b ->
  importsResolve depth manifest a -> importsResolve depth manifest b.
Proof.
  induction 1 as [|a mid b Hstep _ IH]; [done|]. intros Ha. apply IH.
  destruct depth as [|depth]; [done|].
  eapply importsResolve_S, importsResolve_step; eassumption.
Qed.

Lemma cycle_never_resolves depth node :
  tc (importStep manifest) node node -> ~ importsResolve depth manifest node.
Proof.
  revert node. induction depth as [|depth IH]; intros node Hcycle; [by intros []|].
  intros Hres. inversion Hcycle as [? ? Hstep|? mid ? Hstep Hback]; subst.
  - eapply IH; [exact Hcycle|]. eapply importsResolve_step; eassumption.
  - eapply (IH mid); [by eapply tc_r|]. eapply importsResolve_step; eassumption.
Qed.

(** X3. An entry from which a cycle of imports can be reached never resolves:
    at every call depth its resolution ends with an error. *)
Theorem cyclic_imports_throw depth byPath e node :
  rtc (importStep manifest) e node ->
  tc (importStep manifest) node node ->
  exists err, resolveEntry depth byPath manifest e = Throw err.
Proof.
  intros Hreach Hcycle.
  destruct (resolveEntry depth byPath manifest e) as [r|err] eqn:Hr; [|by eexists].
  destruct (proj1 (resolveEntry_returns depth byPath manifest e)) as [_ Hres];
    [by eexists|].
  exfalso. eapply cycle_never_resolves; [exact Hcycle|].
  eapply importsResolve_reach; eassumption.
Qed.

(** X4. Where every import resolves to a record of strictly smaller rank, the
    traversal of a record returns as soon as the call depth exceeds its
    rank. *)
Theorem ranked_manifest_resolves (rank : ManifestEntry -> nat)
    (inGraph : ManifestEntry -> Prop) :
  (forall node key,
     inGraph node -> isStyles (src node) = false -> key ∈ importsOf node ->
     exists child, lookupKey manifest key = Some child /\ inGraph child /\
                   (rank child < rank node)%nat) ->
  forall node depth s,
    inGraph node -> (rank node < depth)%nat ->
    exists s', handleEntryImports depth manifest node s = Normal s'.
Proof.
  intros Hgraph node depth s Hnode Hrank.
  apply handleEntryImports_returns. clear s.
  revert node Hnode Hrank. induction depth as [|depth IH]; intros node Hnode Hrank; [lia|].
  cbn [importsResolve]. destruct (isStyles (src node)) eqn:Hstyle; [by left|].
  right. intros key Hkey.
  destruct (Hgraph node key Hnode Hstyle Hkey) as (child & Hlook & Hchild & Hlt).
  exists child. split; [done|]. apply IH; [done|lia].
Qed.

Lemma forEachImportCalls_weaken
    (calls calls' : ManifestEntry -> Completion (list (option string))) imps later :
  (forall node t, calls node = Normal t -> calls' node = Normal t) ->
  forEachImportCalls calls manifest imps = Normal later ->
  forEachImportCalls calls' manifest imps = Normal later.
Proof.
  intros Hweak. revert later.
  induction imps as [|imp rest IH]; intros later; cbn [forEachImportCalls]; [done|].
  destruct (lookupKey manifest imp) as [child|]; [|done].
  intros (here & Hhere & (rest' & Hrest & [= <-])%bind_Normal)%bind_Normal.
  by rewrite (Hweak _ _ Hhere), (IH _ Hrest).
Qed.

Lemma addCalls_S depth node t :
  addCalls depth manifest node = Normal t ->
  addCalls (S depth) manifest node = Normal t.
Proof.
  revert node t. induction depth as [|depth IH]; intros node t; [done|].
  intros Ht. cbn [addCalls] in *.
  destruct (isStyles (src node)); [done|].
  apply bind_Normal in Ht as (later & Hlater & [= <-]).
  by rewrite (forEachImportCalls_weaken _ _ _ _ IH Hlater).
Qed.

(** X5. A resolution obtained at one call depth is obtained, unchanged, at
    every greater depth. *)
Theorem depth_monotone depth depth' byPath e r :
  (depth <= depth')%nat ->
  resolveEntry depth byPath manifest e = Normal r ->
  resolveEntry depth' byPath manifest e = Normal r.
Proof.
  induction 1 as [|depth' _ IH]; [done|]. intros Hr. specialize (IH Hr).
  apply resolveEntry_Normal in IH as (n & styles & Hn & Hstyles & ->).
  apply resolveEntry_Normal. exists n, styles. split_and!; [done| |done].
  rewrite handleEntryImports_addCalls in *.
  apply bind_Normal in Hstyles as (t & Ht & Heq).
  by rewrite (addCalls_S _ _ _ Ht).
Qed.
End TraversalMore.

Lemma style_set_exact_witness :
  exists r,
    resolveEntry 4 (entryNameByPath []) twoHopManifest appEntry = Normal r /\
    (Some "b.css" ∈ styleFiles r <-> contributes twoHopManifest appEntry (Some "b.css")).
Proof.
  eexists. split; [reflexivity|].
  exact (style_set_exact twoHopManifest 4 (entryNameByPath []) appEntry _
           (Some "b.css") eq_refl).
Defined.

Lemma own_css_first_witness :
  exists r,
    resolveEntry 4 (entryNameByPath []) twoHopManifest appEntry = Normal r /\
    [Some "app.css"] `prefix_of` styleFiles r.
Proof.
  eexists. split; [reflexivity|].
  exact (own_css_first twoHopManifest 4 (entryNameByPath []) appEntry _ eq_refl eq_refl).
Defined.

Lemma cyclic_imports_throw_witness :
  exists err, resolveEntry 1000 (entryNameByPath []) cyclicManifest mainEntry = Throw err.
Proof.
  apply (cyclic_imports_throw cyclicManifest 1000 (entryNameByPath []) mainEntry cycleA).
  - apply rtc_once. split; [reflexivity|].
    exists "src/a.js". split; [by left|reflexivity].
  - apply (tc_l _ cycleA cycleB cycleA).
    + split; [reflexivity|]. exists "src/b.js". split; [by left|reflexivity].
    + apply tc_once. split; [reflexivity|].
      exists "src/a.js". split; [by left|reflexivity].
Defined.

Lemma ranked_manifest_resolves_witness :
  exists s', handleEntryImports 3 twoHopManifest appEntry [] = Normal s'.
Proof.
  apply (ranked_manifest_resolves twoHopManifest
           (fun e => length (importsOf e))
           (fun e => e ∈ manifestValues twoHopManifest)).
  - intros node key Hnode Hscript Hkey. cbn in Hnode.
    repeat (apply elem_of_cons in Hnode as [-> | Hnode]);
      [..|by apply elem_of_nil in Hnode]; try discriminate Hscript; cbn in Hkey;
      repeat (apply elem_of_cons in Hkey as [-> | Hkey]);
      try (by apply elem_of_nil in Hkey);
      (eexists; split; [reflexivity|]; split; [|cbn; lia]);
      cbn; rewrite !elem_of_cons; auto 10.
  - cbn. by left.
  - cbn. lia.
Defined.

Lemma depth_monotone_witness :
  resolveEntry 9 (entryNameByPath []) twoHopManifest appEntry
  = Normal {| entryName := "app";
              styleFiles := [Some "app.css"; Some "shared.css"; Some "s.4.css";
                             Some "b.css"];
              jsFiles := [Some "app.1.js"] |}.
Proof.
  apply (depth_monotone twoHopManifest 4 9); [lia|reflexivity].
Defined.

(** ** What the bundle-close hook does *)

Lemma resolveAll_throws depth byPath manifest values e err :
  e ∈ values -> isEntryTrue e = true ->
  resolveEntry depth byPath manifest e = Throw err ->
  exists err', resolveAll depth byPath manifest values = Throw err'.
Proof.
  intros He Hentry Herr. induction values as [|e' rest IH]; [by apply elem_of_nil in He|].
  cbn [resolveAll]. apply elem_of_cons in He as [<- | He].
  - rewrite Hentry, Herr. by eexists.
  - destruct (IH He) as [err' Herr']. rewrite Herr'.
    destruct (isEntryTrue e'); [|by eexists].
    destruct (resolveEntry depth byPath manifest e'); by eexists.
Qed.

Lemma resolveAll_no_entries depth byPath manifest values :
  (forall e, e ∈ values -> isEntryTrue e = false) ->
  resolveAll depth byPath manifest values = Normal [].
Proof.
  induction values as [|e rest IH]; intros Hnone; [done|].
  cbn [resolveAll]. rewrite (Hnone e) by by left.
  apply IH. intros e' He'. apply Hnone. by right.
Qed.

Section HookFacts.
Variable resolve : list string -> string.
Variable JSON_parse : string -> Completion Manifest.
Variables snippetStart snippetEnd : string.
Variable fs : FileSystem.

(** X6. One entry that fails to resolve costs the whole snippet: nothing is
    written, nothing is removed, and the hook ends normally after a single
    [console.error], however many other entries resolve. *)
Theorem failing_entry_suppresses_snippet depth st isDev snippetPath
    manifestFile manifest e err :
  access fs (resolve [outDir st; manifestFilename st]) = true ->
  readFile fs (resolve [outDir st; manifestFilename st]) = Normal manifestFile ->
  JSON_parse manifestFile = Normal manifest ->
  e ∈ manifestValues manifest ->
  isEntryTrue e = true ->
  resolveEntry depth (entryNameByPath (input st)) manifest e = Throw err ->
  exists err',
    closeBundle resolve JSON_parse snippetStart snippetEnd fs depth st isDev snippetPath
    = ([CallConsoleError err'], Normal tt).
Proof.
  intros Hacc Hread Hparse He Hentry Herr.
  destruct (resolveAll_throws _ _ _ _ _ _ He Hentry Herr) as [err' Herr'].
  exists err'. unfold closeBundle, generate. cbn zeta.
  rewrite Hacc, Hread. cbn [negb mbind IO_bind lift]. by rewrite Hparse, Herr'.
Qed.

(** X7. All the hook ever does: nothing when the manifest is absent;
    otherwise at most one [writeFile], to the snippet path, then at most one
    [unlink], of the manifest, then at most one [console.error]. *)
Theorem closeBundle_trace_shape depth st isDev snippetPath :
  let manifestPath := resolve [outDir st; manifestFilename st] in
  let run := closeBundle resolve JSON_parse snippetStart snippetEnd fs depth st isDev
               snippetPath in
  (access fs manifestPath = false -> run = ([], Normal tt)) /\
  exists text err,
    let write := CallWriteFile snippetPath text in
    let remove := CallUnlink manifestPath in
    let report := CallConsoleError err in
    run.1 = [] \/ run.1 = [report] \/
    run.1 = [write] \/ run.1 = [write; report] \/
    run.1 = [write; remove] \/ run.1 = [write; remove; report].
Proof.
  unfold closeBundle, generate. cbn zeta. split.
  - by intros ->.
  - destruct (access fs _); cbn [negb]; [|exists "", TypeError; by left].
    destruct (readFile fs _) as [manifestFile|err];
      cbn [mbind IO_bind lift tryCatch app fst];
      [|exists "", err; right; by left].
    destruct (JSON_parse manifestFile) as [manifest|err];
      cbn [mbind IO_bind lift tryCatch app fst];
      [|exists "", err; right; by left].
    destruct (resolveAll _ _ _ _) as [rs|err];
      cbn [mbind IO_bind lift tryCatch app fst];
      [|exists "", err; right; by left].
    eexists.
    destruct (writeFile fs _ _) as [[]|err];
      cbn [mbind IO_bind lift tryCatch app fst];
      [|exists err; do 3 right; by left].
    destruct isDev; cbn [mret IO_ret tryCatch app fst];
      [exists TypeError; do 2 right; by left|].
    destruct (unlink fs _) as [[]|err]; cbn [tryCatch app fst].
    + exists TypeError. do 4 right. by left.
    + exists err. do 5 right. done.
Qed.

(** X8. A manifest without entries still has its snippet written, with an
    empty dispatch block, whatever its records import and at any depth. *)
Theorem no_entries_empty_dispatch depth st isDev snippetPath manifestFile manifest :
  access fs (resolve [outDir st; manifestFilename st]) = true ->
  readFile fs (resolve [outDir st; manifestFilename st]) = Normal manifestFile ->
  JSON_parse manifestFile = Normal manifest ->
  (forall e, e ∈ manifestValues manifest -> isEntryTrue e = false) ->
  CallWriteFile snippetPath
    ("{%- liquid" +:+ snippetStart +:+ nl +:+ "  case entry" +:+ nl +:+ "  endcase"
     +:+ nl +:+ snippetEnd +:+ nl +:+ "-%}")
  ∈ (closeBundle resolve JSON_parse snippetStart snippetEnd fs depth st isDev
       snippetPath).1.
Proof.
  intros Hacc Hread Hparse Hnone.
  apply (closeBundle_writes_when resolve JSON_parse snippetStart snippetEnd fs
           depth st isDev snippetPath manifestFile manifest []); try done.
  by apply resolveAll_no_entries.
Qed.
End HookFacts.

Lemma failing_entry_suppresses_snippet_witness :
  exists err,
    closeBundle sampleResolve (fun _ => Normal danglingManifest) "" "" sampleFs 4
      initialState false "/snippets/vite.liquid"
    = ([CallConsoleError err], Normal tt).
Proof.
  apply (failing_entry_suppresses_snippet sampleResolve
           (fun _ => Normal danglingManifest) "" "" sampleFs 4 initialState false
           "/snippets/vite.liquid" "{}" danglingManifest badEntry TypeError);
    try reflexivity.
  cbn. right. by left.
Defined.

Lemma no_entries_empty_dispatch_witness :
  CallWriteFile "/snippets/vite.liquid"
    ("{%- liquid" +:+ nl +:+ "  case entry" +:+ nl +:+ "  endcase" +:+ nl +:+ nl +:+ "-%}")
  ∈ (closeBundle sampleResolve (fun _ => Normal chunksOnlyManifest) "" "" sampleFs 0
       initialState false "/snippets/vite.liquid").1.
Proof.
  apply (no_entries_empty_dispatch sampleResolve (fun _ => Normal chunksOnlyManifest)
           "" "" sampleFs 0 initialState false "/snippets/vite.liquid" "{}"
           chunksOnlyManifest); try reflexivity.
  intros e He. cbn in He. apply list_elem_of_singleton in He as ->. reflexivity.
Defined.

(** ** What the cleanup does *)


Lemma awaitAll_Throw (results : list (Completion unit)) err :
  Throw err ∈ results -> exists err', awaitAll results = Throw err'.
Proof.
  induction results as [|[[]|e] rest IH]; intros Hin.
  - by apply elem_of_nil in Hin.
  - apply elem_of_cons in Hin as [?|Hin]; [done|]. by apply IH.
  - by eexists.
Qed.



Section WriteBundleFacts.
Variable resolve : list string -> string.
Variable fs : FileSystem.

(** X13. When [readdir] fails the cleanup does nothing and fails with the same
    error.  When the [unlink] of a stale file fails, every stale file has
    had its [unlink] call all the same, nothing is printed, and the hook
    fails. *)
Theorem writeBundle_failures (dir : string) (report : string -> list Call)
    (outDir : string) (fileNameRegex : string -> bool)
    (fileNames files : list string) (file : string) (err : JsError) :
  (readdir fs dir = Throw err ->
   writeBundle resolve fs dir report outDir fileNameRegex fileNames = ([], Throw err)) /\
  (readdir fs dir = Normal files ->
   file ∈ staleFiles fileNameRegex fileNames files ->
   unlink fs (resolve [outDir; file]) = Throw err ->
   exists err',
     writeBundle resolve fs dir report outDir fileNameRegex fileNames
     = (map (fun f => CallUnlink (resolve [outDir; f]))
          (staleFiles fileNameRegex fileNames files),
        Throw err')).
Proof.
  unfold writeBundle. split.
  - by intros ->.
  - intros -> Hfile Hfail. cbn [lift mbind IO_bind app].
    destruct (awaitAll_Throw
                (map (unlink fs)
                   (map (fun f => resolve [outDir; f])
                      (staleFiles fileNameRegex fileNames files))) err)
      as [err' Herr'].
    { rewrite <- Hfail. apply list_elem_of_In.
      apply (in_map (unlink fs)), (in_map (fun f => resolve [outDir; f])).
      by apply list_elem_of_In. }
    exists err'. rewrite Herr'. by rewrite map_map.
Qed.

End WriteBundleFacts.




(** ** Strings again *)

Lemma app_assoc_str (a b c : string) : (a +:+ b) +:+ c = a +:+ b +:+ c.
Proof. induction a as [|x a IH]; [done|]. rewrite !append_cons_l. by rewrite IH. Qed.

Lemma append_cancel_r (s s' t : string) : s +:+ t = s' +:+ t -> s = s'.
Proof.
  revert s'. induction s as [|c s IH]; intros [|c' s'] H.
  - done.
  - apply (f_equal String.length) in H. rewrite append_empty_l, append_cons_l in H.
    cbn in H. rewrite length_append in H. lia.
  - apply (f_equal String.length) in H. rewrite append_empty_l, append_cons_l in H.
    cbn in H. rewrite length_append in H. lia.
  - rewrite !append_cons_l in H. injection H as -> H. f_equal. by apply IH.
Qed.


(** ** The URL hook *)

Lemma readBody_escapeChar (c : ascii) (rest : string) :
  Json.readBody (Json.escapeChar c +:+ rest) = String c <$> Json.readBody rest.
Proof.
  destruct c as [[] [] [] [] [] [] [] []]; reflexivity.
Qed.

Lemma readBody_escape (s : string) :
  Json.readBody (Json.escape s +:+ dquote) = Some s.
Proof.
  induction s as [|c s IH]; [done|].
  cbn [Json.escape]. by rewrite app_assoc_str, readBody_escapeChar, IH.
Qed.

(** What [JSON.stringify] writes reads back as the string. *)
Lemma stringify_reads_back (s : string) :
  Json.readLiteral (Json.stringify s) = Some s.
Proof. unfold Json.stringify. cbn. apply readBody_escape. Qed.

(** X18. For host type [js] the hook returns the call of the helper on a
    double-quoted literal that reads back as the file name, so no character
    of the name ends the literal early and different names give different
    code; for any other host type it returns [relative]. *)
Theorem renderBuiltUrl_quotes (helper filename hostType : string) :
  (hostType = "js" ->
   exists literal,
     renderBuiltUrl helper filename hostType
     = Runtime (helper +:+ "(" +:+ literal +:+ ")") /\
     Json.readLiteral literal = Some filename) /\
  (hostType <> "js" -> renderBuiltUrl helper filename hostType = Relative) /\
  (forall other,
     renderBuiltUrl helper filename "js" = renderBuiltUrl helper other "js" ->
     filename = other).
Proof.
  split_and!.
  - intros ->. exists (Json.stringify filename). split; [done|].
    apply stringify_reads_back.
  - intros Hne. unfold renderBuiltUrl.
    destruct (String.eqb_spec hostType "js"); done.
  - intros other [= H]. do 2 apply String.app_inj in H.
    apply append_cancel_r in H.
    pose proof (stringify_reads_back filename) as Ha.
    pose proof (stringify_reads_back other) as Hb.
    rewrite H in Ha. congruence.
Qed.

(** ** The plugin factory and the configuration hooks *)

(** X16. The cleanup sub-plugin is installed with the pattern of
    [cleanup.fileNameRegex] when that is set, with the old-format
    [fileNameRegex] when only that is set, and is not installed when neither
    is; it comes after the config and the snippet sub-plugins. *)
Theorem plugin_composition (options : Plugin.Options) :
  let plugins := Plugin.shopifyVitePlugin options in
  (forall regex,
     Plugin.CleanupPlugin regex ∈ plugins <->
     Plugin.givenCleanupRegex options = Some regex \/
     (Plugin.givenCleanupRegex options = None /\
      Plugin.fileNameRegex options = Some regex)) /\
  map Plugin.pluginName plugins
  = (["vite-plugin-for-shopify:config"; "vite-plugin-for-shopify:snippet"]
     ++ if bool_decide (Plugin.givenCleanupRegex options = None /\
                        Plugin.fileNameRegex options = None)
        then [] else ["vite-plugin-for-shopify:cleanup"])%list.
Proof.
  unfold Plugin.shopifyVitePlugin, Plugin.cleanupRegex. cbn zeta.
  destruct (Plugin.fileNameRegex options) as [old|],
           (Plugin.givenCleanupRegex options) as [given|];
    cbn [app]; (split; [|done]); intros regex;
    rewrite !elem_of_cons, ?elem_of_nil; split.
  all: try (intros [?|[?|[?|?]]]; try done; simplify_eq; by auto).
  all: try (intros [?|[?|?]]; try done; simplify_eq; by auto).
  all: intros [?|[? ?]]; simplify_eq; by auto.
Qed.


(** ** The prologue's flags *)

(** X19. Without [import_mode], [only_js] switches the styles off and
    [only_css] switches the scripts off unless [only_js] is set as well.
    With [import_mode], styles are emitted only when [only_css] is set and
    [only_js] is not, scripts only when [only_css] is not set; nothing at
    all is emitted exactly when all three parameters are set. *)
Theorem mode_selection (only_js only_css import_mode : bool) :
  let '(css, js) := modeFlags only_js only_css import_mode in
  (import_mode = false -> css = negb only_js /\ js = (only_js || negb only_css)) /\
  (import_mode = true -> css = (only_css && negb only_js) /\ js = negb only_css) /\
  (css = false /\ js = false <->
   import_mode = true /\ only_js = true /\ only_css = true).
Proof. destruct only_js, only_css, import_mode; cbn; intuition congruence. Qed.

(** ** The assignments and the entry names *)

Lemma lastIndexOf_cons_absent (a c : ascii) (s : string) :
  Js.lastIndexOf (String a s) c = -1 -> Ascii.eqb a c = false /\ Js.lastIndexOf s c = -1.
Proof.
  cbn [Js.lastIndexOf]. pose proof (lastIndexOf_bounds s c).
  destruct (Z.leb_spec 0 (Js.lastIndexOf s c)); [lia|].
  destruct (Ascii.eqb a c); [done|]. intros _. split; [done|lia].
Qed.

Lemma splitOn_absent (c : ascii) (x rest : string) :
  Js.lastIndexOf x c = -1 ->
  splitOn c (x +:+ String c rest) = x :: splitOn c rest /\ splitOn c x = [x].
Proof.
  induction x as [|a x IH].
  - intros _. rewrite append_empty_l. cbn. by rewrite Ascii.eqb_refl.
  - intros [Hne Habs]%lastIndexOf_cons_absent. destruct (IH Habs) as [IH1 IH2].
    rewrite append_cons_l. cbn [splitOn]. by rewrite Hne, IH1, IH2.
Qed.

Lemma splitOn_join (xs : list string) :
  xs <> [] ->
  Forall (fun x => Js.lastIndexOf x "|" = -1) xs ->
  splitOn "|" (Js.join "|" (map Some xs)) = xs.
Proof.
  intros Hne Hall. induction Hall as [|x rest Hx Hrest IH]; [done|].
  destruct rest as [|y rest].
  - cbn. by apply splitOn_absent.
  - change (Js.join "|" (map Some (x :: y :: rest)))
      with (x +:+ "|" +:+ Js.join "|" (map Some (y :: rest))).
    change ("|" +:+ ?s) with (String "|" s).
    rewrite (proj1 (splitOn_absent "|" x _ Hx)), IH; done.
Qed.

(** X20. The text of an assignment determines the list of files, provided
    the list is not empty and no file name contains the separator. *)
Theorem assignment_determines_files (xs ys : list string) :
  xs <> [] -> ys <> [] ->
  Forall (fun x => Js.lastIndexOf x "|" = -1) xs ->
  Forall (fun y => Js.lastIndexOf y "|" = -1) ys ->
  assignStyleFiles (map Some xs) = assignStyleFiles (map Some ys)
  \/ assignScriptFiles (map Some xs) = assignScriptFiles (map Some ys) ->
  xs = ys.
Proof.
  intros Hxs Hys Hx Hy Heq.
  assert (Js.join "|" (map Some xs) = Js.join "|" (map Some ys)) as Hjoin.
  { destruct Heq as [H | H]; unfold assignStyleFiles, assignScriptFiles in H;
      do 3 apply String.app_inj in H; by apply append_cancel_r in H. }
  by rewrite <- (splitOn_join xs), <- (splitOn_join ys), Hjoin.
Qed.

(** A file name with the separator in it is written like two files. *)
Example bar_in_file_name :
  assignStyleFiles [Some "a|b"] = assignStyleFiles [Some "a"; Some "b"].
Proof. reflexivity. Qed.

(** X9. Naming an entry fails, with a [TypeError], exactly when the record has
    neither [name] nor [src] and no configured input has the path
    [undefined]; a record with a [src] is always named. *)
Theorem entryNameOf_throws (byPath : gmap string string) (e : ManifestEntry) err :
  entryNameOf byPath e = Throw err <->
  err = TypeError /\ name e = None /\ src e = None /\ byPath !! "undefined" = None.
Proof.
  unfold entryNameOf. destruct (name e); [by split; [|intros (_ & ? & _)]|].
  destruct (src e) as [s|]; cbn [Js.toString].
  - destruct (byPath !! s); split; try done; by intros (_ & _ & ? & _).
  - destruct (byPath !! "undefined"); split; try done.
    + by intros (_ & _ & _ & ?).
    + by intros [= <-].
    + by intros (-> & _).
Qed.

(** X10. The name found for a source path is the key of the last configured
    input whose path, less one leading [./], is that source path. *)
Theorem input_key_lookup (input : list (string * string)) (p key : string) :
  entryNameByPath input !! p = Some key <->
  exists before path after,
    input = (before ++ (key, path) :: after)%list /\
    normalizePath path = p /\
    forall kv, kv ∈ after -> normalizePath kv.2 <> p.
Proof.
  split.
  - induction input as [|[key' path'] input IH] using rev_ind; [done|].
    rewrite entryNameByPath_snoc, lookup_insert.
    destruct (decide (normalizePath path' = p)) as [<- | Hne].
    + intros [= <-]. exists input, path', []. split_and!; [done..|].
      intros kv Hkv. by apply elem_of_nil in Hkv.
    + intros (before & path & after & -> & Hpath & Hafter)%IH.
      exists before, path, (after ++ [(key', path')])%list. split_and!.
      * by rewrite <- app_assoc.
      * done.
      * intros kv [Hkv | ->%list_elem_of_singleton]%elem_of_app; auto.
  - intros (before & path & after & -> & <- & Hafter). by apply entryNameByPath_last.
Qed.

Lemma substring_swap (s : string) (a b : Z) : Js.substring s a b = Js.substring s b a.
Proof. unfold Js.substring. cbn zeta. by rewrite Z.min_comm, Z.max_comm. Qed.

(** X12. For a source path without any dot the derived name is the
    directory part with its final slash, and empty when there is no
    directory part. *)
Theorem stemOf_without_extension (dir base : string) :
  Js.lastIndexOf dir "." = -1 ->
  Js.lastIndexOf base "." = -1 ->
  Js.lastIndexOf base "/" = -1 ->
  stemOf (dir +:+ "/" +:+ base) = dir +:+ "/" /\ stemOf base = "".
Proof.
  intros Hdir Hbase Hslash. unfold stemOf. split.
  - rewrite !lastIndexOf_append, Hdir, Hbase, Hslash. cbn [Js.lastIndexOf Ascii.eqb].
    cbn. pose proof (len_nonneg dir).
    destruct (Z.leb_spec 0 (Js.len dir + 0)); [|lia].
    rewrite substring_swap.
    pose proof (substring_middle "" (dir +:+ "/") base) as H1.
    rewrite append_empty_l, len_append in H1.
    rewrite <- app_assoc_str. rewrite <- H1 at 2.
    unfold Js.substring, Js.clamp. rewrite !len_append.
    change (Js.len "") with 0. change (Js.len "/") with 1.
    pose proof (len_nonneg base).
    f_equal; lia.
  - rewrite Hbase, Hslash. unfold Js.substring, Js.clamp. pose proof (len_nonneg base).
    replace (Z.to_nat _) with 0%nat by lia.
    replace (Z.to_nat _) with 0%nat by lia.
    by destruct base.
Qed.

Lemma assignment_determines_files_witness :
  ["a.css"; "b.css"] = ["a.css"; "b.css"].
Proof.
  apply (assignment_determines_files ["a.css"; "b.css"] ["a.css"; "b.css"]);
    [done|done| | |by left]; repeat constructor.
Defined.

Lemma stemOf_without_extension_witness :
  stemOf "src/theme" = "src/" /\ stemOf "theme" = "".
Proof.
  exact (stemOf_without_extension "src" "theme" eq_refl eq_refl eq_refl).
Defined.

Lemma entryNameOf_chain_witness :
  entryNameOf (entryNameByPath [("main", "./src/theme.js"); ("other", "src/other.js")])
    (entryRecord None (Some "src/theme.js") (Some "theme.abc123.js") [] [])
  = Normal "main".
Proof.
  destruct (entryNameOf_chain
              [("main", "./src/theme.js"); ("other", "src/other.js")]
              (entryRecord None (Some "src/theme.js") (Some "theme.abc123.js") [] [])
              "src/" "theme" "js" eq_refl (or_intror (ex_intro _ "src" eq_refl))
              eq_refl eq_refl eq_refl) as (_ & Hkey & _).
  apply (Hkey [] "main" "./src/theme.js" [("other", "src/other.js")]);
    [reflexivity..|].
  intros kv ->%list_elem_of_singleton. discriminate.
Defined.
